(** * AirdropKit: the mail.cx mailbox provider and the verification-code extractor

    A shallow embedding of [airdrop_email/verifier.py] ([CodeExtractor]),
    [airdrop_email/base.py] ([EmailMessage]) and [email/mail_cx/provider.py]
    ([MailCxProvider]), with the properties of the design document stated and
    settled against it.

    Python text is a sequence of Unicode code points.  What the interpreter and
    its libraries supply (the Unicode tables behind [re] and [str], the HTML
    parser behind [BeautifulSoup], [datetime.fromtimestamp], [urllib.parse.unquote])
    is taken through interfaces; the network, the clock and the random
    generator are the streams of a [World] that the provider reads in order. *)

From Stdlib Require Import String Ascii List NArith ZArith QArith Bool Lia.
Import ListNotations.
Close Scope Q_scope.

Set Implicit Arguments.

(* ===================================================================== *)
(** * Python strings *)
(* ===================================================================== *)

Module Py.

(** A [str] is the list of its code points, so that [len] is [length]. *)
Definition char := N.
Definition str := list char.

(** An ASCII literal of the source. *)
Definition lit (s : string) : str := map N_of_ascii (list_ascii_of_string s).
Arguments lit s%_string.

Definition str_eqb (a b : str) : bool :=
  if list_eq_dec N.eq_dec a b then true else false.

(** Truthiness of a [str] and of an [Optional[str]]: [None] and [''] are false. *)
Definition truthy (s : str) : bool :=
  match s with [] => false | _ :: _ => true end.

Definition truthy_opt (o : option str) : bool :=
  match o with Some s => truthy s | None => false end.

(** [x or ''] on an [Optional[str]]. *)
Definition or_empty (o : option str) : str :=
  match o with Some s => s | None => [] end.

(** [s.startswith(p)]. *)
Fixpoint startswith (p s : str) : bool :=
  match p, s with
  | [], _ => true
  | c :: p', d :: s' => N.eqb c d && startswith p' s'
  | _ :: _, [] => false
  end.

(** [sub in s]: [sub] occurs in [s] as a contiguous run. *)
Fixpoint contains (sub s : str) : bool :=
  startswith sub s
  || match s with
     | [] => false
     | _ :: s' => contains sub s'
     end.

(** [sep.join(parts)]. *)
Fixpoint join (sep : str) (parts : list str) : str :=
  match parts with
  | [] => []
  | [p] => p
  | p :: ps => p ++ sep ++ join sep ps
  end.

(** [x in xs] for a list or a set of strings. *)
Definition mem (x : str) (xs : list str) : bool := existsb (str_eqb x) xs.

(** [s.strip(chars)] and [s.strip()], by the set of characters to drop. *)
Fixpoint lstrip_by (drop : char -> bool) (s : str) : str :=
  match s with
  | c :: s' => if drop c then lstrip_by drop s' else s
  | [] => []
  end.

Definition strip_by (drop : char -> bool) (s : str) : str :=
  rev (lstrip_by drop (rev (lstrip_by drop s))).

Definition strip_chars (chars : str) : str -> str :=
  strip_by (fun c => existsb (N.eqb c) chars).

(** [int(x)] on a float: truncation towards zero.  Floats are taken as exact
    rationals. *)
Definition int_of (x : Q) : Z := Z.quot (Qnum x) (Z.pos (Qden x)).

Definition Qltb (a b : Q) : bool := negb (Qle_bool b a).

(** What the Unicode database decides.  [re] compiles a [str] pattern in
    Unicode mode: [\d] is a decimal digit, [\w] an alphanumeric or [_],
    [\s] what [str.isspace] accepts, and under [re.IGNORECASE] a pattern
    character matches the text characters that fold onto it. *)
Class Unicode := {
  is_decimal : char -> bool;
  is_word : char -> bool;
  is_space : char -> bool;
  icase : char -> char -> bool;
  lower : str -> str
}.

Definition strip `{Unicode} : str -> str := strip_by is_space.

(** Exceptions that leave the modelled functions. *)
Inductive exn := IndexError | TypeError | ValueError.

Inductive result (A : Type) :=
| Returned (a : A)
| Raised (e : exn).
Arguments Raised {A} e.

(** The tables on the ASCII range: they agree with CPython on every code
    point below 128, which is where the concrete runs below live. *)
Module Ascii7.

Definition between (lo hi c : N) : bool := (N.leb lo c && N.leb c hi)%N.

Definition lower1 (c : char) : char :=
  if between 65 90 c then (c + 32)%N else c.

Definition digit (c : char) : bool := between 48 57 c.

Definition word (c : char) : bool :=
  between 48 57 c || between 65 90 c || between 97 122 c || N.eqb c 95.

Definition space (c : char) : bool :=
  between 9 13 c || between 28 32 c.

#[export] Instance tables : Unicode := {|
  is_decimal := digit;
  is_word := word;
  is_space := space;
  icase := fun p c => N.eqb (lower1 p) (lower1 c);
  lower := map lower1
|}.

End Ascii7.

End Py.

Import Py.

(* ===================================================================== *)
(** * Regular expressions, as [re] runs them *)
(* ===================================================================== *)

Module Re.

(** A compiled pattern.  Characters are tested by a predicate, which is where
    classes, ranges and the [IGNORECASE] flag end up after compilation.
    [Group] is capturing group 1, the only one the extractor reads; a
    non-capturing group is its body. *)
Inductive regex :=
| Eps
| Chr (p : char -> bool)
| Seq (r1 r2 : regex)
| Alt (r1 r2 : regex)
| Rep (r : regex) (lo : nat) (hi : option nat)
| Group (r : regex)
| WordB.

Fixpoint has_group (r : regex) : bool :=
  match r with
  | Eps | Chr _ | WordB => false
  | Seq r1 r2 | Alt r1 r2 => has_group r1 || has_group r2
  | Rep r1 _ _ => has_group r1
  | Group _ => true
  end.

Definition below (n : nat) (hi : option nat) : bool :=
  match hi with
  | Some h => Nat.ltb n h
  | None => true
  end.

(** A position in the text: the character before it, and the rest. *)
Record pos := { before : option char; rest : str }.

Definition step (c : char) (s : str) : pos := {| before := Some c; rest := s |}.

Section Matching.
Context {U : Unicode}.

Definition wordy (o : option char) : bool :=
  match o with Some c => is_word c | None => false end.

(** [\b]: exactly one side of the position is a word character. *)
Definition at_boundary (p : pos) : bool :=
  xorb (wordy (before p)) (wordy (hd_error (rest p))).

(** The backtracking matcher: [run r p g k] matches [r] at [p] with group 1
    currently [g], then hands the position reached to [k]; alternatives are
    tried left to right and repetitions are greedy, as in [sre]. A repetition
    past its minimum stops when an iteration consumes nothing. *)
Fixpoint run (R : Type) (r : regex) (p : pos) (g : option str)
    (k : pos -> option str -> option R) {struct r} : option R :=
  match r with
  | Eps => k p g
  | Chr f =>
      match rest p with
      | c :: s' => if f c then k (step c s') g else None
      | [] => None
      end
  | Seq r1 r2 => run r1 p g (fun p' g' => run r2 p' g' k)
  | Alt r1 r2 =>
      match run r1 p g k with
      | Some x => Some x
      | None => run r2 p g k
      end
  | Group r1 =>
      run r1 p g (fun p' _ =>
        k p' (Some (firstn (length (rest p) - length (rest p')) (rest p))))
  | WordB => if at_boundary p then k p g else None
  | Rep r1 lo hi =>
      (fix loop (fuel n : nat) (p : pos) (g : option str) {struct fuel} : option R :=
         let stop := if Nat.leb lo n then k p g else None in
         match fuel with
         | O => stop
         | S fuel' =>
             if below n hi then
               match run r1 p g (fun p' g' =>
                       if Nat.ltb n lo || Nat.ltb (length (rest p')) (length (rest p))
                       then loop fuel' (S n) p' g'
                       else None) with
               | Some x => Some x
               | None => stop
               end
             else stop
         end) (lo + length (rest p)) 0 p g
  end.

(** A match object: [group(0)], [group(1)] when the group took part, and the
    position where the match ends. *)
Record match_ := {
  group0 : str;
  group1 : option str;
  stop_at : pos
}.

Definition match_at (r : regex) (must_advance : bool) (p : pos) : option match_ :=
  run r p None (fun p' g =>
    if must_advance && Nat.eqb (length (rest p')) (length (rest p)) then None
    else Some {| group0 := firstn (length (rest p) - length (rest p')) (rest p);
                 group1 := g;
                 stop_at := p' |}).

(** The scan of [re.search]: the leftmost position where the pattern matches.
    [must_advance] forbids an empty match at the first position only. *)
Fixpoint scan (r : regex) (must_advance : bool) (b : option char) (s : str)
    : option match_ :=
  match match_at r must_advance {| before := b; rest := s |} with
  | Some m => Some m
  | None =>
      match s with
      | [] => None
      | c :: s' => scan r false (Some c) s'
      end
  end.

(** [re.search(pattern, text)]. *)
Definition search (r : regex) (text : str) : option match_ :=
  scan r false None text.

(** [re.finditer(pattern, text)]: the successive non-overlapping matches; after
    an empty match the next one may not be empty at the same place. *)
Fixpoint finditer_from (fuel : nat) (r : regex) (must_advance : bool) (p : pos)
    : list match_ :=
  match fuel with
  | O => []
  | S fuel' =>
      match scan r must_advance (before p) (rest p) with
      | None => []
      | Some m =>
          m :: finditer_from fuel' r
                 (match group0 m with [] => true | _ :: _ => false end) (stop_at m)
      end
  end.

Definition finditer (r : regex) (text : str) : list match_ :=
  finditer_from (2 * length text + 2) r false {| before := None; rest := text |}.

(** [re.findall] for a pattern without groups: the texts of the matches. *)
Definition findall (r : regex) (text : str) : list str :=
  map group0 (finditer r text).

(** [match.group(1)]: [IndexError] when the pattern has no group 1, [None]
    when the group did not take part in the match. *)
Definition group_1 (r : regex) (m : match_) : result (option str) :=
  if has_group r then Returned (group1 m) else Raised IndexError.

End Matching.

(** Pattern syntax. *)
Definition seq (rs : list regex) : regex := fold_right Seq Eps rs.
Definition alt (r : regex) (rs : list regex) : regex :=
  fold_left Alt rs r.
Definition times (n : nat) (r : regex) : regex := Rep r n (Some n).
Definition star (r : regex) : regex := Rep r 0 None.
Definition plus (r : regex) : regex := Rep r 1 None.

(** The code points [lo..hi] of a range [lo-hi] in a class. *)
Definition range (lo hi : N) : list char :=
  map (fun i => (lo + N.of_nat i)%N) (List.seq 0 (S (N.to_nat (hi - lo)))).

End Re.

Import Re.

(* ===================================================================== *)
(** * The parsed HTML document, as [bs4] exposes it *)
(* ===================================================================== *)

Module Soup.

(** The tree that [BeautifulSoup(markup, 'html.parser')] builds: text, nodes
    that carry no visible text (comments, declarations), and tags with their
    attribute dictionary and children. *)
#[warnings="-register-all"]
Inductive node :=
| NavigableString (s : str)
| Comment (s : str)
| Tag (name : str) (attrs : list (str * str)) (contents : list node).

(** The parser itself is the library's. *)
Class Parser := { BeautifulSoup : str -> list node }.

(** A parser known at one document: the markup [doc] reads as [tree]. *)
Definition reading (doc : str) (tree : list node) : Parser :=
  {| BeautifulSoup := fun markup => if str_eqb markup doc then tree else [] |}.

Fixpoint attr (key : str) (attrs : list (str * str)) : option str :=
  match attrs with
  | [] => None
  | (k, v) :: attrs' => if str_eqb k key then Some v else attr key attrs'
  end.

Definition has (key : str) (attrs : list (str * str)) : bool :=
  match attr key attrs with Some _ => true | None => false end.

(** [for t in soup(names): t.decompose()]: every tag with one of the names
    leaves the tree, with all it contains. *)
Fixpoint decompose (names : list str) (n : node) : list node :=
  match n with
  | Tag name attrs contents =>
      if mem name names then []
      else [Tag name attrs (flat_map (decompose names) contents)]
  | _ => [n]
  end.

(** The strings of a subtree, in document order. *)
Fixpoint strings (n : node) : list str :=
  match n with
  | NavigableString s => [s]
  | Comment _ => []
  | Tag _ _ contents => flat_map strings contents
  end.

(** [find_all(name, **{key: True})]: the tags with that name that carry the
    attribute, in document order, nested ones included. *)
Fixpoint find_all (name key : str) (n : node) : list node :=
  match n with
  | Tag nm attrs contents =>
      (if str_eqb nm name && has key attrs then [n] else [])
      ++ flat_map (find_all name key) contents
  | _ => []
  end.

(** [tag[key]] on a tag that [find_all] returned for this key. *)
Definition item (key : str) (n : node) : str :=
  match n with
  | Tag _ attrs _ => or_empty (attr key attrs)
  | _ => []
  end.

Section Text.
Context {U : Unicode}.

(** [get_text(separator, strip=True)]: every string is stripped, the empty
    ones are dropped, the others are joined. *)
Definition get_text_strip (separator : str) (nodes : list node) : str :=
  join separator (filter truthy (map strip (flat_map strings nodes))).

End Text.

End Soup.

(* ===================================================================== *)
(** * airdrop_email/base.py *)
(* ===================================================================== *)

(** A [datetime] is observed by the provider through
    [int(dt.timestamp() * 1000)] only, and stands for that value. *)
Record datetime := { timestamp_millis : Z }.

(** The [EmailMessage] dataclass, with the types it declares. *)
Record EmailMessage := {
  id : str;
  subject : str;
  sender : str;
  recipient : str;
  body_text : str;
  body_html : option str;
  received_at : option datetime;
  headers : option (list (str * str));
  attachments : option (list (list (str * str)))
}.

(* ===================================================================== *)
(** * airdrop_email/verifier.py *)
(* ===================================================================== *)

Module CodeExtractor.

(** The dictionary that [extract_info] returns, by key. *)
Module Info.
Record t := {
  codes : list str;
  primary_code : option str;
  links : list str;
  verification_link : option str;
  subject : str;
  sender : str
}.
End Info.

Section Extractor.
Context {U : Unicode} {P : Soup.Parser}.

(** Pattern pieces under [re.IGNORECASE]. *)
Definition set_i (chars : list char) : regex :=
  Chr (fun c => existsb (fun p => icase p c) chars).

Definition lit_i (s : str) : regex := seq (map (fun p => Chr (icase p)) s).

Definition digit : regex := Chr is_decimal.

(** [[A-Z0-9]] *)
Definition alnum : regex := set_i (range 65 90 ++ range 48 57).

(** [[\s:U+FF1A]]: white space, a colon or a full-width colon. *)
Definition separator : regex :=
  Chr (fun c => is_space c || existsb (fun p => icase p c) [58; 65306]%N).

(** [[?&]] *)
Definition query_mark : regex := set_i (lit "?&").

Definition bare (r : regex) : regex := seq [WordB; Group r; WordB].

Definition labelled (label : regex) : regex :=
  seq [label; star separator; Group (Rep alnum 4 (Some 8))].

Definition url_parameter (name : string) : regex :=
  seq [query_mark; lit_i (lit name); Group (plus alnum)].

(** The three CJK labels of the sixth pattern, by code point. *)
Definition cjk_labels : regex :=
  alt (lit_i [39564; 35777; 30721]%N)
      [lit_i [30906; 35469; 30908]%N; lit_i [39511; 35657; 30908]%N].

Definition english_labels : regex :=
  alt (lit_i (lit "code"))
      [lit_i (lit "verification code"); lit_i (lit "verify code");
       lit_i (lit "confirmation code"); lit_i (lit "otp"); lit_i (lit "pin")].

Definition PATTERNS : list regex :=
  [ bare (times 6 digit);
    bare (times 4 digit);
    bare (times 8 digit);
    bare (Rep alnum 6 (Some 8));
    labelled english_labels;
    labelled cjk_labels;
    url_parameter "code=";
    url_parameter "token=" ].

Definition false_positives : list str :=
  [lit "2024"; lit "2023"; lit "2022"; lit "2021"; lit "2020";
   lit "1234"; lit "0000"; lit "9999"].

Definition _is_valid_code (code : str) : bool :=
  if mem code false_positives then false
  else if Nat.ltb (length code) 4 || Nat.ltb 8 (length code) then false
  else true.

(** The text both extractors search: the visible text of the HTML body, when
    there is one and it is wanted, put before the plain body. *)
Definition search_text (message : EmailMessage) (use_html : bool) : str :=
  let text := body_text message in
  if use_html && truthy_opt (body_html message) then
    let soup := Soup.BeautifulSoup (or_empty (body_html message)) in
    let soup := flat_map (Soup.decompose [lit "script"; lit "style"]) soup in
    let html_text := Soup.get_text_strip (lit " ") soup in
    html_text ++ [10%N] ++ text
  else text.

(** The loop over the default patterns: the first match of each pattern is
    looked at, and returned when it is valid.  A group that took no part in
    the match would reach [len(None)]. *)
Fixpoint try_patterns (patterns : list regex) (text : str) : result (option str) :=
  match patterns with
  | [] => Returned None
  | p :: patterns' =>
      match search p text with
      | Some m =>
          match group_1 p m with
          | Returned (Some code) =>
              if _is_valid_code code then Returned (Some code)
              else try_patterns patterns' text
          | Returned None => Raised TypeError
          | Raised e => Raised e
          end
      | None => try_patterns patterns' text
      end
  end.

(** [extract_code(message, pattern, use_html)].  The custom pattern arrives
    compiled with [re.IGNORECASE]; the empty pattern string is false and
    selects the default table, like [None]. *)
Definition extract_code (message : EmailMessage) (pattern : option regex)
    (use_html : bool) : result (option str) :=
  let text := search_text message use_html in
  match pattern with
  | Some p =>
      match search p text with
      | Some m => group_1 p m
      | None => Returned None
      end
  | None => try_patterns PATTERNS text
  end.

(** The inner loop of [extract_all_codes], over the matches of one pattern;
    the state is [codes] (kept in reverse) with the set [seen]. *)
Fixpoint collect (p : regex) (matches : list match_) (codes seen : list str)
    : result (list str * list str) :=
  match matches with
  | [] => Returned (codes, seen)
  | m :: matches' =>
      match group_1 p m with
      | Returned (Some code) =>
          if negb (mem code seen) && _is_valid_code code
          then collect p matches' (code :: codes) (code :: seen)
          else collect p matches' codes seen
      | Returned None => Raised TypeError
      | Raised e => Raised e
      end
  end.

Fixpoint collect_all (patterns : list regex) (text : str) (codes seen : list str)
    : result (list str) :=
  match patterns with
  | [] => Returned (rev codes)
  | p :: patterns' =>
      match collect p (finditer p text) codes seen with
      | Returned (codes', seen') => collect_all patterns' text codes' seen'
      | Raised e => Raised e
      end
  end.

Definition extract_all_codes (message : EmailMessage) (use_html : bool)
    : result (list str) :=
  collect_all PATTERNS (search_text message use_html) [] [].

(** The URL pattern, compiled without flags: [https?://] or [www\.], then
    one or more characters that are neither white space nor one of [<], [>]
    and the double quote. *)
Definition exactly (s : str) : regex := seq (map (fun p => Chr (N.eqb p)) s).

Definition url_char : regex :=
  Chr (fun c => negb (is_space c || existsb (N.eqb c) [60; 62; 34]%N)).

Definition url_pattern : regex :=
  Alt (seq [exactly (lit "http"); Rep (exactly (lit "s")) 0 (Some 1);
            exactly (lit "://"); plus url_char])
      (seq [exactly (lit "www."); plus url_char]).

Definition is_http (href : str) : bool :=
  startswith (lit "http://") href || startswith (lit "https://") href.

(** The loop over the anchors of the HTML body. *)
Fixpoint first_link (keyword : option str) (links : list Soup.node) : option str :=
  match links with
  | [] => None
  | link :: links' =>
      let href := Soup.item (lit "href") link in
      let link_text := Soup.get_text_strip [] [link] in
      match keyword with
      | Some kw =>
          if contains (lower kw) (lower href) || contains (lower kw) (lower link_text)
          then Some href
          else first_link keyword links'
      | None =>
          if is_http href then Some href else first_link keyword links'
      end
  end.

(** The loop over the URLs found in the plain text. *)
Fixpoint first_url (keyword : option str) (urls : list str) : option str :=
  match urls with
  | [] => None
  | url :: urls' =>
      match keyword with
      | Some kw =>
          if contains (lower kw) (lower url) then Some url
          else first_url keyword urls'
      | None => Some url
      end
  end.

(** A keyword that is [None] or [''] is false. *)
Definition given (keyword : option str) : option str :=
  match keyword with
  | Some (_ :: _) => keyword
  | _ => None
  end.

Definition extract_link (message : EmailMessage) (keyword : option str)
    : option str :=
  let text := body_text message in
  let from_html :=
    if truthy_opt (body_html message) then
      let soup := Soup.BeautifulSoup (or_empty (body_html message)) in
      first_link (given keyword)
        (flat_map (Soup.find_all (lit "a") (lit "href")) soup)
    else None in
  match from_html with
  | Some href => Some href
  | None => first_url (given keyword) (findall url_pattern text)
  end.

(** The keywords that [extract_info] tries in turn; the last two are
    U+9A8C U+8BC1 and U+78BA U+8A8D. *)
Definition KEYWORDS : list str :=
  [lit "verify"; lit "confirm"; lit "activate"; lit "validation";
   [39564; 35777]%N; [30906; 35469]%N].

(** The loop over the keywords: the first link found that is not the empty
    string. *)
Fixpoint first_keyword_link (message : EmailMessage) (keywords : list str)
    : option str :=
  match keywords with
  | [] => None
  | keyword :: keywords' =>
      match extract_link message (Some keyword) with
      | Some (c :: link) => Some (c :: link)
      | _ => first_keyword_link message keywords'
      end
  end.

(** The [href] of every anchor of the HTML body that starts with [http://]
    or [https://]. *)
Definition http_links (message : EmailMessage) : list str :=
  if truthy_opt (body_html message) then
    filter is_http
      (map (Soup.item (lit "href"))
         (flat_map (Soup.find_all (lit "a") (lit "href"))
            (Soup.BeautifulSoup (or_empty (body_html message)))))
  else [].

Definition extract_info (message : EmailMessage) : result Info.t :=
  match extract_all_codes message true with
  | Raised e => Raised e
  | Returned all_codes =>
      match extract_code message None true with
      | Raised e => Raised e
      | Returned primary =>
          Returned
            {| Info.codes := all_codes;
               Info.primary_code := primary;
               Info.links := http_links message;
               Info.verification_link := first_keyword_link message KEYWORDS;
               Info.subject := subject message;
               Info.sender := sender message |}
      end
  end.

End Extractor.

End CodeExtractor.

(* ===================================================================== *)
(** * email/mail_cx/provider.py *)
(* ===================================================================== *)

Module MailCx.

(** A JSON value as [response.json()] decodes it.  A number written without
    fraction or exponent decodes to an [int], any other number to a [float]:
    a finite one, given by its exact value, or one of the three that the
    decoder accepts beyond the standard, [NaN], [Infinity] and [-Infinity].
    [bool] is a subtype of [int] in Python, so [True] counts as 1 wherever a
    number is wanted. *)
#[warnings="-register-all"]
Inductive json :=
| JNull
| JBool (b : bool)
| JInt (z : Z)
| JFloat (x : Q)
| JNaN
| JInfinity (negative : bool)
| JStr (s : str)
| JList (items : list json)
| JDict (fields : list (str * json)).

(** The value of an [int], [bool] included. *)
Definition as_int (j : json) : option Z :=
  match j with
  | JInt z => Some z
  | JBool b => Some (if b then 1 else 0)%Z
  | _ => None
  end.

(** The value of a finite number, [int] or [float]. *)
Definition as_number (j : json) : option Q :=
  match j with
  | JFloat x => Some x
  | _ => option_map inject_Z (as_int j)
  end.

Definition json_truthy (j : json) : bool :=
  match j with
  | JNull => false
  | JBool b => b
  | JInt z => negb (Z.eqb z 0)
  | JFloat x => negb (Qeq_bool x 0)
  | JNaN => true
  | JInfinity _ => true
  | JStr s => truthy s
  | JList items => match items with [] => false | _ :: _ => true end
  | JDict fields => match fields with [] => false | _ :: _ => true end
  end.

(** [j <= bound] for an [int] bound; [None] when the comparison raises
    [TypeError].  Python compares an [int] and a [float] by their exact
    values; [NaN] compares false with everything. *)
Definition at_most (j : json) (bound : Z) : option bool :=
  match j with
  | JFloat x => Some (Qle_bool x (inject_Z bound))
  | JNaN => Some false
  | JInfinity negative => Some negative
  | _ => option_map (fun z => Z.leb z bound) (as_int j)
  end.

(** The ['from'] field of a record: an object with an optional ['address'],
    a string, or [null]. *)
Inductive from_field :=
| FromDict (address : option str)
| FromStr (s : str)
| FromNull.

(** One message record of the mailbox reply.  A field is [None] when the key
    is missing.  The fields the provider stores unread are strings, as the
    service sends them and as [EmailMessage] declares them; the time stamp,
    which the provider compares and converts, is any JSON value. *)
Record record := {
  r_id : option str;
  r_subject : option str;
  r_from : option from_field;
  r_text : option str;
  r_html : option str;
  r_headers : option (list (str * str));
  r_posix_millis : option json
}.

(** [d.get(key, default)] on a field that may be missing. *)
Definition get (A : Type) (field : option A) (default : A) : A :=
  match field with Some v => v | None => default end.

(** What the interpreter supplies to the provider:
    [fromtimestamp t] is [datetime.fromtimestamp(t / 1000)] for a finite
    number [t], [None] when it raises; [unquote] is [urllib.parse.unquote];
    [float_mul x y] is the product [x * y] of two floats, rounded to a float
    as the machine does.  Of the rounding, the provider's properties need two
    facts of IEEE 754 arithmetic: it keeps the order, and it never crosses a
    float, of which the integers up to [2 ^ 53] are. *)
Class Platform := {
  fromtimestamp : Q -> option datetime;
  unquote : str -> str;
  float_mul : Q -> Q -> Q;
  float_mul_monotone : forall x y c : Q,
    (0 <= c)%Q -> (x <= y)%Q -> (float_mul x c <= float_mul y c)%Q;
  float_mul_integer : forall (x c : Q) (z : Z),
    (Z.abs z <= 2 ^ 53)%Z ->
    ((x * c <= inject_Z z)%Q -> (float_mul x c <= inject_Z z)%Q)
    /\ ((inject_Z z <= x * c)%Q -> (inject_Z z <= float_mul x c)%Q)
}.

(** ** The world outside *)

(** The answer to the handshake [GET]: the call raised, or a response came
    with its cookies, one per name. *)
Inductive handshake :=
| GetRaised
| Cookies (cookies : list (str * str)).

(** The answer to the mailbox [GET]: the call raised, or a response came with
    a status and a body; the body is [None] when it does not decode to an
    array of message objects, in which case reading it raises. *)
Inductive fetch :=
| FetchRaised
| Response (status_code : Z) (data : option (list record)).

(** The successive readings of [time.time()] (seconds: floats, each given by
    its exact value), the successive answers of the service and the
    successive draws of the random generator. *)
Record World := {
  clock : nat -> Q;
  handshakes : nat -> handshake;
  fetches : nat -> fetch;
  draws : nat -> nat
}.

Definition IO (A : Type) : Type := World -> A * World.

Definition ret (A : Type) (a : A) : IO A := fun w => (a, w).

Definition bind (A B : Type) (c : IO A) (k : A -> IO B) : IO B :=
  fun w => let (a, w') := c w in k a w'.

Declare Scope io_scope.
Delimit Scope io_scope with io.
Notation "x <- c ;; k" := (bind c (fun x => k))
  (at level 61, c at next level, right associativity) : io_scope.
Local Open Scope io_scope.

Definition tail (A : Type) (s : nat -> A) : nat -> A := fun n => s (S n).

Definition time_time : IO Q := fun w =>
  (clock w 0,
   {| clock := tail (clock w); handshakes := handshakes w;
      fetches := fetches w; draws := draws w |}).

Definition session_get_home : IO handshake := fun w =>
  (handshakes w 0,
   {| clock := clock w; handshakes := tail (handshakes w);
      fetches := fetches w; draws := draws w |}).

Definition session_get_mailbox : IO fetch := fun w =>
  (fetches w 0,
   {| clock := clock w; handshakes := handshakes w;
      fetches := tail (fetches w); draws := draws w |}).

(** A uniform draw among [n] values, [n > 0]. *)
Definition random_below (n : nat) : IO nat := fun w =>
  (Nat.modulo (draws w 0) n,
   {| clock := clock w; handshakes := handshakes w;
      fetches := fetches w; draws := tail (draws w) |}).

(** [random.randint(a, b)], [a <= b]. *)
Definition randint (a b : nat) : IO nat :=
  d <- random_below (b - a + 1) ;; ret (a + d).

(** [random.choice(population)] on a non-empty population. *)
Definition choice (A : Type) (default : A) (population : list A) : IO A :=
  d <- random_below (length population) ;; ret (nth d population default).

(** [random.choices(population, k=k)]. *)
Fixpoint choices (A : Type) (default : A) (population : list A) (k : nat)
    : IO (list A) :=
  match k with
  | O => ret []
  | S k' =>
      x <- choice default population ;;
      xs <- choices default population k' ;;
      ret (x :: xs)
  end.

(** ** The provider *)

(** The attributes of a [MailCxProvider] that the methods read and write;
    [auto_create] is the truth value of [config['auto_create']], [None] when
    the key was not given. *)
Record MailCxProvider := {
  email : str;
  auto_create : option bool;
  auth_token : option str;
  registration_time : option Z
}.

(** [MailCxProvider(email, **kwargs)]: the address given, or the empty
    string; no token and no registration time yet. *)
Definition __init__ (address : option str) (auto_create : option bool)
    : MailCxProvider :=
  {| email := or_empty address;
     auto_create := auto_create;
     auth_token := None;
     registration_time := None |}.

Definition MAIL_HOSTS : list str :=
  [lit "qabq.com"; lit "nqmo.com"; lit "end.tw"; lit "uuf.me"; lit "6n9.net"].

(** [string.ascii_lowercase] *)
Definition ascii_lowercase : str := lit "abcdefghijklmnopqrstuvwxyz".

Section Provider.
Context {U : Unicode} {PF : Platform}.

Fixpoint cookie (name : str) (cookies : list (str * str)) : option str :=
  match cookies with
  | [] => None
  | (k, v) :: cookies' => if str_eqb k name then Some v else cookie name cookies'
  end.

(** [get_auth_token]: the token of the [auth_token] cookie, unquoted and
    stripped, or [None] when the request raised or brought no such cookie.
    The address hint goes to the session's cookie jar, which belongs to the
    world. *)
Definition get_auth_token (self : MailCxProvider) : IO (option str) :=
  response <- session_get_home ;;
  match response with
  | GetRaised => ret None
  | Cookies cookies =>
      match cookie (lit "auth_token") cookies with
      | Some raw_token =>
          ret (Some (strip (strip_chars [39%N]
                       (strip_chars [34%N] (strip (unquote raw_token))))))
      | None => ret None
      end
  end.

Definition generate_random_email : IO str :=
  username_length <- randint 6 10 ;;
  username <- choices 0%N ascii_lowercase username_length ;;
  domain <- choice [] MAIL_HOSTS ;;
  ret (username ++ lit "@" ++ domain).

Definition create_email (self : MailCxProvider) : IO (str * MailCxProvider) :=
  address <- generate_random_email ;;
  now <- time_time ;;
  ret (address,
       {| email := address;
          auto_create := auto_create self;
          auth_token := auth_token self;
          registration_time := Some (int_of (float_mul now 1000)) |}).

Definition connect (self : MailCxProvider) : IO (bool * MailCxProvider) :=
  token <- get_auth_token self ;;
  let self := {| email := email self;
                 auto_create := auto_create self;
                 auth_token := token;
                 registration_time := registration_time self |} in
  if negb (truthy_opt (auth_token self)) then ret (false, self)
  else if negb (truthy (email self)) || get (auto_create self) true then
    created <- create_email self ;; ret (true, snd created)
  else ret (true, self).

(** [since_millis and msg_time <= since_millis]; [None] when the comparison
    raises [TypeError]. *)
Definition too_old (since_millis : option Z) (msg_time : json) : option bool :=
  match since_millis with
  | None => Some false
  | Some bound =>
      if Z.eqb bound 0 then Some false
      else at_most msg_time bound
  end.

(** The guarded conversion of the time stamp: whatever it raises is
    swallowed and leaves [received_at] at [None]. *)
Definition parse_time (msg_time : json) : option datetime :=
  if json_truthy msg_time then
    match as_number msg_time with
    | Some t => fromtimestamp t
    | None => None
    end
  else None.

Definition sender_of (from : option from_field) : str :=
  match from with
  | Some (FromDict address) => get address []
  | Some (FromStr s) => s
  | Some FromNull => lit "None"
  | None => []
  end.

Definition to_message (self : MailCxProvider) (msg_data : record)
    (received : option datetime) : EmailMessage :=
  {| id := get (r_id msg_data) [];
     subject := get (r_subject msg_data) [];
     sender := sender_of (r_from msg_data);
     recipient := email self;
     body_text := get (r_text msg_data) [];
     body_html := Some (get (r_html msg_data) []);
     received_at := received;
     headers := Some (get (r_headers msg_data) []);
     attachments := None |}.

(** The loop over the records; [None] when an exception leaves it. *)
Fixpoint convert (self : MailCxProvider) (since_millis : option Z)
    (data : list record) : option (list EmailMessage) :=
  match data with
  | [] => Some []
  | msg_data :: data' =>
      let msg_time := get (r_posix_millis msg_data) (JInt 0) in
      match too_old since_millis msg_time with
      | None => None
      | Some true => convert self since_millis data'
      | Some false =>
          option_map (cons (to_message self msg_data (parse_time msg_time)))
                     (convert self since_millis data')
      end
  end.

(** [data[:limit]] *)
Definition slice_to (A : Type) (limit : Z) (data : list A) : list A :=
  if Z.leb 0 limit then firstn (Z.to_nat limit) data
  else firstn (length data - Z.to_nat (- limit)) data.

Definition since_millis_of (self : MailCxProvider) (since : option datetime)
    : option Z :=
  match since with
  | Some dt => Some (timestamp_millis dt)
  | None =>
      match registration_time self with
      | Some t => if Z.eqb t 0 then None else Some t
      | None => None
      end
  end.

(** The [try] block of [get_messages], given the answer of the service: any
    exception ends in the empty list. *)
Definition fetch_result (self : MailCxProvider) (limit : Z)
    (since : option datetime) (response : fetch) : list EmailMessage :=
  match response with
  | FetchRaised => []
  | Response status_code body =>
      if negb (Z.eqb status_code 200) then []
      else match body with
           | None => []
           | Some data =>
               get (convert self (since_millis_of self since) (slice_to limit data)) []
           end
  end.

Definition get_messages (self : MailCxProvider) (limit : Z)
    (since : option datetime) : IO (list EmailMessage) :=
  if negb (truthy_opt (auth_token self)) then ret []
  else if negb (truthy (email self)) then ret []
  else
    response <- session_get_mailbox ;;
    ret (fetch_result self limit since response).

(** [filter and filter.lower() not in field.lower()] *)
Definition filtered_out (filter : option str) (field : str) : bool :=
  truthy_opt filter && negb (contains (lower (or_empty filter)) (lower field)).

(** The [for] loop of [wait_for_message] over one batch: the message
    returned, if any, and the set of seen ids afterwards. *)
Fixpoint check_messages (wait_start_millis : Z)
    (filter_subject filter_sender : option str)
    (messages : list EmailMessage) (seen_ids : list str)
    : option EmailMessage * list str :=
  match messages with
  | [] => (None, seen_ids)
  | msg :: messages' =>
      if mem (id msg) seen_ids then
        check_messages wait_start_millis filter_subject filter_sender messages' seen_ids
      else
        let seen_ids := id msg :: seen_ids in
        if match received_at msg with
           | Some dt => Z.ltb (timestamp_millis dt) wait_start_millis
           | None => false
           end
        then check_messages wait_start_millis filter_subject filter_sender messages' seen_ids
        else if filtered_out filter_subject (subject msg)
        then check_messages wait_start_millis filter_subject filter_sender messages' seen_ids
        else if filtered_out filter_sender (sender msg)
        then check_messages wait_start_millis filter_subject filter_sender messages' seen_ids
        else (Some msg, seen_ids)
  end.

(** The [while] loop, for at most [fuel] rounds: [None] when the rounds run
    out before the loop ends.  [time.sleep] raises on a negative interval.
    The readings of one wait lie close to each other, and the difference of
    two such floats is exact. *)
Fixpoint wait_loop (fuel : nat) (self : MailCxProvider) (start_time : Q)
    (wait_start_millis timeout interval : Z)
    (filter_subject filter_sender : option str) (seen_ids : list str)
    : IO (option (result (option EmailMessage))) :=
  match fuel with
  | O => ret None
  | S fuel' =>
      now <- time_time ;;
      if Qltb (now - start_time) (inject_Z timeout) then
        if Z.ltb interval 0 then ret (Some (Raised ValueError))
        else
          messages <- get_messages self 20 None ;;
          match check_messages wait_start_millis filter_subject filter_sender
                  messages seen_ids with
          | (Some msg, _) => ret (Some (Returned (Some msg)))
          | (None, seen_ids') =>
              elapsed <- time_time ;;
              wait_loop fuel' self start_time wait_start_millis timeout interval
                filter_subject filter_sender seen_ids'
          end
      else ret (Some (Returned None))
  end.

Definition wait_for_message (fuel : nat) (self : MailCxProvider)
    (timeout interval : Z) (filter_subject filter_sender : option str)
    : IO (option (result (option EmailMessage))) :=
  start_time <- time_time ;;
  started <- time_time ;;
  wait_loop fuel self start_time (int_of (float_mul started 1000)) timeout interval
    filter_subject filter_sender [].

End Provider.

End MailCx.

(* ===================================================================== *)
(** * airdrop_email/client.py *)
(* ===================================================================== *)

Module EmailClient.

Section Client.
Context {U : Unicode} {P : Soup.Parser}.

(** The facade passes the message and the pattern on, and leaves [use_html]
    at its default. *)
Definition extract_code (message : EmailMessage) (pattern : option regex)
    : result (option str) :=
  CodeExtractor.extract_code message pattern true.

Definition extract_link (message : EmailMessage) (keyword : option str)
    : option str :=
  CodeExtractor.extract_link message keyword.

End Client.

(** [create_temp_email] with no address among its keyword arguments. *)
Definition create_temp_email (auto_create : option bool) : MailCx.MailCxProvider :=
  MailCx.__init__ None auto_create.

End EmailClient.

(* ===================================================================== *)
(** * tests/email/test_mailcx_simple.py *)
(* ===================================================================== *)

Module Harness.

Import MailCx.
Local Open Scope io_scope.

Section Polling.
Context {U : Unicode} {P : Soup.Parser} {PF : Platform}.






End Polling.

End Harness.

(* ===================================================================== *)
(** * Vocabulary of the statements, and sample inputs *)
(* ===================================================================== *)

Import CodeExtractor.

(** What the design asks of a returned code: none of the false-positive
    literals, and between 4 and 8 characters. *)
Definition acceptable (code : str) : Prop :=
  ~ In code
      [lit "2024"; lit "2023"; lit "2022"; lit "2021"; lit "2020";
       lit "1234"; lit "0000"; lit "9999"]
  /\ 4 <= length code <= 8.

(** A call that returns, with a value that satisfies [Q]. *)
Definition returns (A : Type) (Q : A -> Prop) (r : result A) : Prop :=
  match r with
  | Returned a => Q a
  | Raised _ => False
  end.

(** Patterns in which every match goes through group 1. *)
Fixpoint sets_group (r : regex) : bool :=
  match r with
  | Group _ => true
  | Seq r1 r2 => sets_group r1 || sets_group r2
  | Alt r1 r2 => sets_group r1 && sets_group r2
  | _ => false
  end.

Module Samples.

#[local] Existing Instance Py.Ascii7.tables.

(** A message with a plain body only. *)
Definition plain (text : string) : EmailMessage :=
  {| id := lit "1"; subject := lit "Welcome"; sender := lit "noreply@example.com";
     recipient := lit "abcdef@qabq.com"; body_text := lit text; body_html := None;
     received_at := None; headers := None; attachments := None |}.

(** A message with an HTML body only. *)
Definition rich (html : string) : EmailMessage :=
  {| id := lit "1"; subject := lit "Welcome"; sender := lit "noreply@example.com";
     recipient := lit "abcdef@qabq.com"; body_text := []; body_html := Some (lit html);
     received_at := None; headers := None; attachments := None |}.

(** No message of the plain samples has markup to parse. *)
Definition no_markup : Soup.Parser := Soup.reading [] [].

(** The custom patterns [(\d{4})] and [(\d+)]. *)
Definition four_digits : regex := Group (times 4 digit).
Definition some_digits : regex := Group (plus digit).

(** A year, then a code of four digits. *)
Definition year_then_code : EmailMessage := plain "2024 5678".

(** The same bodies under two different envelopes. *)
Definition first_copy : EmailMessage := plain "Your code: 482913".





(** An anchor that points to a mail address, and the tree it parses to. *)
Definition mailto_message : EmailMessage :=
  rich "<a href='mailto:verify@example.com'>Contact us</a>".

Definition mailto_soup : list Soup.node :=
  [Soup.Tag (lit "a") [(lit "href", lit "mailto:verify@example.com")]
     [Soup.NavigableString (lit "Contact us")]].

Definition mailto_parser : Soup.Parser :=
  Soup.reading (lit "<a href='mailto:verify@example.com'>Contact us</a>") mailto_soup.

End Samples.

(** The anchors of a document, and the test of the keyword branch. *)
Definition anchors (soup : list Soup.node) : list Soup.node :=
  flat_map (Soup.find_all (lit "a") (lit "href")) soup.

Definition mentions {U : Unicode} (keyword : str) (link : Soup.node) : bool :=
  contains (lower keyword) (lower (Soup.item (lit "href") link))
  || contains (lower keyword) (lower (Soup.get_text_strip [] [link])).

(** An interpreter for the sample runs: [unquote] decodes the escapes of the
    ASCII range; a time stamp of whole milliseconds between 1970 and 9999
    survives the round trip through [datetime] unchanged, and one with a
    fraction loses the fraction; products are exact, as they are on the
    machine when the exact product is itself a float: so for the readings of
    the sample clocks, which are whole seconds or lie a few 8192ths of a
    second after one. *)
Module Exact.

Definition hex_value (c : char) : option N :=
  if Py.Ascii7.between 48 57 c then Some (c - 48)%N
  else if Py.Ascii7.between 65 70 c then Some (c - 55)%N
  else if Py.Ascii7.between 97 102 c then Some (c - 87)%N
  else None.

Fixpoint unquote_ascii (s : str) : str :=
  match s with
  | [] => []
  | c :: t =>
      match N.eqb c 37, t with
      | true, h :: l :: s' =>
          match hex_value h, hex_value l with
          | Some a, Some b =>
              (if N.ltb (16 * a + b) 128 then 16 * a + b else 65533)%N
              :: unquote_ascii s'
          | _, _ => c :: unquote_ascii t
          end
      | _, _ => c :: unquote_ascii t
      end
  end.

Definition platform : MailCx.Platform :=
  {| MailCx.fromtimestamp := fun t =>
       if Qle_bool 0 t && negb (Qle_bool 253402300800000 t)
       then Some {| timestamp_millis := int_of t |} else None;
     MailCx.unquote := unquote_ascii;
     MailCx.float_mul := Qmult;
     MailCx.float_mul_monotone := fun x y c Hc H => Qmult_le_compat_r x y c H Hc;
     MailCx.float_mul_integer := fun x c z _ => conj (fun H => H) (fun H => H) |}.

End Exact.

Import MailCx.

Module Worlds.

(** A service that never answers. *)
Definition silent (ticks : nat -> Q) : World :=
  {| clock := ticks;
     handshakes := fun _ => GetRaised;
     fetches := fun _ => FetchRaised;
     draws := fun n => n |}.

(** A clock that reads one second more at each reading. *)
Definition seconds_from (start : Z) : nat -> Q :=
  fun n => inject_Z (start + Z.of_nat n).


(** A provider before [connect], and one that holds a token and an address. *)
Definition fresh : MailCxProvider := EmailClient.create_temp_email None.

Definition bound : MailCxProvider :=
  {| email := lit "abcdef@qabq.com"; auto_create := None;
     auth_token := Some (lit "abc");
     registration_time := Some 1700000000000%Z |}.

(** The same provider before any address was created for it. *)
Definition unregistered : MailCxProvider :=
  {| email := lit "abcdef@qabq.com"; auto_create := Some false;
     auth_token := Some (lit "abc"); registration_time := None |}.

(** Records of a mailbox reply: one without a time stamp, one whose time
    stamp is a string, and two regular ones. *)
Definition bare_record (name : string) (stamp : option json) : record :=
  {| r_id := Some (lit name); r_subject := Some (lit "Your code");
     r_from := Some (FromDict (Some (lit "noreply@example.com")));
     r_text := Some (lit "Your code: 482913"); r_html := None;
     r_headers := None; r_posix_millis := stamp |}.

Definition unstamped : record := bare_record "m0" None.
Definition malformed : record :=
  bare_record "m1" (Some (JStr (lit "1700000015000"))).
Definition early : record := bare_record "m2" (Some (JInt 1700000005000)).
Definition late : record := bare_record "m3" (Some (JInt 1700000020000)).

(** A service that answers the successive mailbox requests with the given
    batches, under a clock that starts at [start] seconds. *)
Definition inbox (start : Z) (batches : list (list record)) : World :=
  {| clock := seconds_from start;
     handshakes := fun _ => GetRaised;
     fetches := fun n => nth n (map (fun b => Response 200 (Some b)) batches) FetchRaised;
     draws := fun n => n |}.

End Worlds.


(** The time stamp the filter of [get_messages] compares: the field, or 0
    when the record has none. *)
Definition msg_time (msg_data : record) : json :=
  get (r_posix_millis msg_data) (JInt 0).

Definition stamp (msg_data : record) : Z := get (as_int (msg_time msg_data)) 0%Z.

(** The messages of the [k]-th poll of a [wait_for_message] call. *)
Definition polled {PF : Platform} (self : MailCxProvider)
    (w : World) (k : nat) : list EmailMessage :=
  fetch_result self 20 None (fetches w k).

(** A letter of [a-z]. *)
Definition lowercase (c : char) : Prop := (97 <= c <= 122)%N.

(* ===================================================================== *)
(** * Vocabulary of the further statements *)
(* ===================================================================== *)

(** The texts that a pattern can consume, boundaries and groups aside. *)
Fixpoint lang (r : regex) (c : str) : Prop :=
  match r with
  | Eps | WordB => c = []
  | Chr f => exists ch, c = [ch] /\ f ch = true
  | Seq r1 r2 => exists c1 c2, c = c1 ++ c2 /\ lang r1 c1 /\ lang r2 c2
  | Alt r1 r2 => lang r1 c \/ lang r2 c
  | Rep r1 lo hi =>
      exists parts,
        c = concat parts /\ Forall (lang r1) parts
        /\ lo <= length parts
        /\ (forall h, hi = Some h -> length parts <= h)
  | Group r1 => lang r1 c
  end.

(** The texts that group 1 can hold once a match of the pattern has set it. *)
Fixpoint captured (r : regex) (t : str) : Prop :=
  match r with
  | Group r1 => lang r1 t
  | Seq r1 r2 | Alt r1 r2 => captured r1 t \/ captured r2 t
  | Rep r1 _ _ => captured r1 t
  | _ => False
  end.

(** [t] is a contiguous part of [s]. *)
Definition occurs_in (t s : str) : Prop := exists a b, s = a ++ t ++ b.

(** The characters that the groups of the default patterns accept: a decimal
    digit, or what [[A-Z0-9]] matches when case is ignored. *)
Definition code_char {U : Unicode} (c : char) : bool :=
  is_decimal c || existsb (fun p => icase p c) (range 65 90 ++ range 48 57).

(** The group of the leftmost match of a pattern, and whether the default
    loop accepts the pattern on a text. *)
Definition candidate {U : Unicode} (p : regex) (text : str) : option str :=
  match search p text with
  | Some m => group1 m
  | None => None
  end.

Definition accepted {U : Unicode} (p : regex) (text : str) : bool :=
  match candidate p text with
  | Some code => _is_valid_code code
  | None => false
  end.

(** A time stamp that gives no [datetime]: a zero, or a value that is not a
    finite number; a missing one counts as the zero it defaults to. *)
Definition timeless (msg_time : json) : bool :=
  match msg_time with
  | JInt z => Z.eqb z 0
  | JBool b => negb b
  | JFloat x => Qeq_bool x 0
  | JNull | JNaN | JInfinity _ | JStr _ | JList _ | JDict _ => true
  end.


Module MoreSamples.

(** A plain message that names a site without scheme. *)
Definition invitation : EmailMessage :=
  Samples.plain "Visit www.example.com/confirm to activate".

(** A service whose handshake sets the token cookie, quoted and escaped. *)
Definition welcoming (start : Z) : World :=
  {| clock := Worlds.seconds_from start;
     handshakes := fun _ => Cookies [(lit "auth_token", lit "%22abc123%22 ")];
     fetches := fun _ => FetchRaised;
     draws := fun n => n |}.

(** A record whose time stamp has a fraction: 1700000020000.5 *)
Definition fractional : record :=
  Worlds.bare_record "m4" (Some (JFloat (3400000040001 # 2))).

(** A provider built with an address, with [auto_create] switched off and
    with [auto_create] left out. *)
Definition preset_kept : MailCxProvider :=
  __init__ (Some (lit "me@qabq.com")) (Some false).

Definition preset_default : MailCxProvider :=
  __init__ (Some (lit "me@qabq.com")) None.

End MoreSamples.

(* ===================================================================== *)
(** * Properties of the code extractor *)
(* ===================================================================== *)



Lemma str_eqb_eq (a b : str) : str_eqb a b = true <-> a = b.
Proof.
  unfold str_eqb. destruct (list_eq_dec N.eq_dec a b); split; congruence.
Qed.

Lemma mem_In (x : str) (xs : list str) : mem x xs = true <-> In x xs.
Proof.
  unfold mem. rewrite existsb_exists. split.
  - intros (y & Hy & E). apply str_eqb_eq in E. now subst.
  - intros H. exists x. split; [assumption | now apply str_eqb_eq].
Qed.

(** ** Group 1 in a match *)

Section GroupProperties.
Context {U : Unicode}.

(** The matcher hands over what it found: a successful run ends in a call of
    the continuation, and group 1 is set there when the pattern sets it or
    when it was set before. *)
Lemma run_group (r : regex) :
  forall (R : Type) (p : pos) (g : option str)
         (k : pos -> option str -> option R) (x : R),
    run r p g k = Some x ->
    exists p' g',
      k p' g' = Some x
      /\ (sets_group r = true \/ g <> None -> g' <> None).
Proof.
  induction r as [| f | r1 IH1 r2 IH2 | r1 IH1 r2 IH2 | r1 IH1 lo hi | r1 IH1 |];
    intros R p g k x; cbn [run sets_group].
  - intros H. exists p, g. split; [exact H |]. intros [? | ?]; [discriminate | assumption].
  - destruct (rest p) as [| c s']; [discriminate |].
    destruct (f c); [| discriminate].
    intros H. exists (step c s'), g. split; [exact H |].
    intros [? | ?]; [discriminate | assumption].
  - intros H. apply IH1 in H. destruct H as (p1 & g1 & H & G1).
    apply IH2 in H. destruct H as (p2 & g2 & H & G2).
    exists p2, g2. split; [exact H |].
    intros [S | N].
    + apply orb_true_iff in S as [S | S]; apply G2; [right; apply G1 |]; auto.
    + apply G2. right. apply G1. now right.
  - destruct (run r1 p g k) as [y |] eqn:First.
    + intros H. injection H as ->. apply IH1 in First.
      destruct First as (p1 & g1 & H & G1). exists p1, g1. split; [exact H |].
      intros [S | N]; apply G1; [left | now right].
      now apply andb_true_iff in S as [S _].
    + intros H. apply IH2 in H.
      destruct H as (p2 & g2 & H & G2). exists p2, g2. split; [exact H |].
      intros [S | N]; apply G2; [left | now right].
      now apply andb_true_iff in S as [_ S].
  - generalize (lo + length (rest p)) as fuel. generalize 0 as n.
    intros n fuel. revert n p g.
    induction fuel as [| fuel IHf]; intros n p g.
    + destruct (Nat.leb lo n); [| discriminate].
      intros H. exists p, g. split; [exact H |].
      intros [? | ?]; [discriminate | assumption].
    + assert ((if Nat.leb lo n then k p g else None) = Some x ->
              exists p' g', k p' g' = Some x
                            /\ (false = true \/ g <> None -> g' <> None)) as Stop.
      { destruct (Nat.leb lo n); [| discriminate].
        intros H. exists p, g. split; [exact H |].
        intros [? | ?]; [discriminate | assumption]. }
      destruct (below n hi); [| exact Stop].
      match goal with
      | |- match ?call with _ => _ end = _ -> _ => destruct call as [y |] eqn:Step
      end; [| exact Stop].
      intros H. injection H as ->. apply IH1 in Step.
      destruct Step as (p1 & g1 & H & G1).
      destruct (Nat.ltb n lo || Nat.ltb (length (rest p1)) (length (rest p)));
        [| discriminate].
      apply IHf in H. destruct H as (p2 & g2 & H & G2).
      exists p2, g2. split; [exact H |].
      intros [? | N]; [discriminate |]. apply G2. right. apply G1. now right.
  - intros H. apply IH1 in H. destruct H as (p1 & g1 & H & _).
    eexists. eexists. split; [exact H |]. discriminate.
  - destruct (at_boundary p); [| discriminate].
    intros H. exists p, g. split; [exact H |].
    intros [? | ?]; [discriminate | assumption].
Qed.

Lemma match_at_group (r : regex) (must_advance : bool) (p : pos) (m : match_) :
  sets_group r = true ->
  match_at r must_advance p = Some m ->
  group1 m <> None.
Proof.
  intros S H. unfold match_at in H. apply run_group in H.
  destruct H as (p' & g' & H & G).
  destruct (must_advance && _); [discriminate |].
  injection H as <-. cbn [group1]. apply G. now left.
Qed.

Lemma scan_group (r : regex) (s : str) :
  sets_group r = true ->
  forall must_advance b m,
    scan r must_advance b s = Some m -> group1 m <> None.
Proof.
  intros S. induction s as [| c s IH]; intros must_advance b m; cbn [scan];
    destruct (match_at r must_advance _) as [m' |] eqn:M;
    try discriminate;
    try (intros H; injection H as <-; eapply match_at_group; eassumption).
  apply IH.
Qed.

Lemma finditer_from_group (r : regex) (fuel : nat) :
  sets_group r = true ->
  forall must_advance p,
    Forall (fun m => group1 m <> None) (finditer_from fuel r must_advance p).
Proof.
  intros S. induction fuel as [| fuel IH]; intros must_advance p;
    cbn [finditer_from]; [constructor |].
  destruct (scan r must_advance (before p) (rest p)) as [m |] eqn:M;
    [| constructor].
  constructor; [eapply scan_group; eassumption | apply IH].
Qed.

End GroupProperties.

Section ExtractorProperties.
Context {U : Unicode} {P : Soup.Parser}.

(** Every pattern of the default table declares group 1 and sets it in every
    match. *)
Lemma PATTERNS_set_group :
  Forall (fun p => has_group p = true /\ sets_group p = true) PATTERNS.
Proof. repeat constructor. Qed.

Lemma is_valid_code_acceptable (code : str) :
  _is_valid_code code = true <-> acceptable code.
Proof.
  unfold _is_valid_code, acceptable. fold false_positives.
  destruct (mem code false_positives) eqn:M.
  - apply mem_In in M. split; [discriminate | tauto].
  - assert (~ In code false_positives) as NI.
    { intros H. apply mem_In in H. congruence. }
    destruct (Nat.ltb_spec (length code) 4); simpl.
    + split; [discriminate | lia].
    + destruct (Nat.ltb_spec 8 (length code)); split;
        try discriminate; try tauto; try lia.
      intros _. split; [assumption | lia].
Qed.

Lemma try_patterns_valid (patterns : list regex) (text code : str) :
  try_patterns patterns text = Returned (Some code) ->
  _is_valid_code code = true.
Proof.
  induction patterns as [| p patterns IH]; simpl; [discriminate |].
  destruct (search p text) as [m |]; [| exact IH].
  destruct (group_1 p m) as [[c |] | e]; try discriminate.
  destruct (_is_valid_code c) eqn:V; [| exact IH].
  intros E. injection E as <-. exact V.
Qed.

Lemma collect_valid (p : regex) (matches : list match_) :
  forall codes seen codes' seen',
    Forall (fun c => _is_valid_code c = true) codes ->
    collect p matches codes seen = Returned (codes', seen') ->
    Forall (fun c => _is_valid_code c = true) codes'.
Proof.
  induction matches as [| m matches IH]; simpl; intros codes seen codes' seen' F.
  - intros E. injection E as <- <-. exact F.
  - destruct (group_1 p m) as [[c |] | e]; try discriminate.
    destruct (negb (mem c seen) && _is_valid_code c) eqn:T.
    + apply andb_true_iff in T as [_ V]. apply IH. now constructor.
    + now apply IH.
Qed.

Lemma collect_all_valid (patterns : list regex) (text : str) :
  forall codes seen out,
    Forall (fun c => _is_valid_code c = true) codes ->
    collect_all patterns text codes seen = Returned out ->
    Forall (fun c => _is_valid_code c = true) out.
Proof.
  induction patterns as [| p patterns IH]; simpl; intros codes seen out F.
  - intros E. injection E as <-. now apply Forall_rev.
  - destruct (collect p (finditer p text) codes seen) as [[codes' seen'] | e] eqn:C;
      [| discriminate].
    apply IH. eapply collect_valid; eassumption.
Qed.

Lemma try_patterns_returns (patterns : list regex) (text : str) :
  Forall (fun p => has_group p = true /\ sets_group p = true) patterns ->
  exists r, try_patterns patterns text = Returned r.
Proof.
  induction patterns as [| p patterns IH]; intros F; cbn [try_patterns].
  - now exists None.
  - inversion F as [| ? ? [HG SG] F']; subst. specialize (IH F').
    destruct (search p text) as [m |] eqn:M; [| exact IH].
    unfold group_1. rewrite HG.
    destruct (group1 m) as [code |] eqn:G.
    + destruct (_is_valid_code code); [now exists (Some code) | exact IH].
    + exfalso. unfold search in M. now apply (scan_group p text SG _ _ M).
Qed.

Lemma collect_returns (p : regex) (matches : list match_) :
  has_group p = true ->
  Forall (fun m => group1 m <> None) matches ->
  forall codes seen, exists out, collect p matches codes seen = Returned out.
Proof.
  intros HG. induction matches as [| m matches IH]; intros F codes seen;
    cbn [collect].
  - now exists (codes, seen).
  - inversion F as [| ? ? G F']; subst.
    unfold group_1. rewrite HG.
    destruct (group1 m) as [code |]; [| congruence].
    destruct (negb (mem code seen) && _is_valid_code code); now apply IH.
Qed.

Lemma collect_all_returns (patterns : list regex) (text : str) :
  Forall (fun p => has_group p = true /\ sets_group p = true) patterns ->
  forall codes seen, exists out, collect_all patterns text codes seen = Returned out.
Proof.
  induction patterns as [| p patterns IH]; intros F codes seen;
    cbn [collect_all].
  - now exists (rev codes).
  - inversion F as [| ? ? [HG SG] F']; subst.
    destruct (collect_returns p HG
                (finditer_from_group p (2 * length text + 2) SG false
                   {| before := None; rest := text |}) codes seen)
      as [[codes' seen'] C].
    unfold finditer. rewrite C. now apply IH.
Qed.

(** C3, as the code has it.  With the default pattern table, [extract_code]
    and [extract_all_codes] return without raising, and what they return is
    validated: a code is none of the false-positive literals and has between
    4 and 8 characters.  A custom pattern is outside this guarantee, its
    first group being returned as it is. *)
Theorem default_codes_pass_validation (message : EmailMessage) (use_html : bool) :
  returns (fun found => forall code, found = Some code -> acceptable code)
    (extract_code message None use_html)
  /\ returns (Forall acceptable) (extract_all_codes message use_html).
Proof.
  split.
  - destruct (try_patterns_returns (search_text message use_html)
                PATTERNS_set_group) as [found E].
    unfold extract_code. rewrite E. cbn [returns]. intros code ->.
    apply is_valid_code_acceptable. eapply try_patterns_valid; exact E.
  - destruct (collect_all_returns (search_text message use_html)
                PATTERNS_set_group [] []) as [codes E].
    unfold extract_all_codes. rewrite E. cbn [returns].
    apply collect_all_valid in E; [| constructor].
    eapply Forall_impl; [| exact E].
    intros c. apply is_valid_code_acceptable.
Qed.


End ExtractorProperties.

(** C3, as stated, fails for a custom pattern: [(\d{4})] on the body "2024"
    returns the literal "2024", and [(\d+)] on the body "12" returns a code of
    two characters. *)
Lemma custom_pattern_skips_validation :
  extract_code (U := Py.Ascii7.tables) (P := Samples.no_markup)
    (Samples.plain "2024") (Some Samples.four_digits) true
  = Returned (Some (lit "2024"))
  /\ ~ acceptable (lit "2024")
  /\ extract_code (U := Py.Ascii7.tables) (P := Samples.no_markup)
       (Samples.plain "12") (Some Samples.some_digits) true
     = Returned (Some (lit "12"))
  /\ ~ acceptable (lit "12").
Proof.
  split; [vm_compute; reflexivity |].
  split; [intros [H _]; apply H; simpl; auto |].
  split; [vm_compute; reflexivity |].
  intros [_ H]. simpl in H. lia.
Qed.

(** Two runs of the default table: a code of six digits, and the year
    that is left out. *)
Lemma default_codes_pass_validation_witness :
  acceptable (lit "482913") /\ Forall acceptable [lit "5678"].
Proof.
  split.
  - pose proof (proj1 (default_codes_pass_validation (U := Py.Ascii7.tables)
                         (P := Samples.no_markup) Samples.first_copy true)) as H.
    replace (extract_code (U := Py.Ascii7.tables) (P := Samples.no_markup)
               Samples.first_copy None true)
      with (Returned (Some (lit "482913"))) in H by (vm_compute; reflexivity).
    now apply H.
  - pose proof (proj2 (default_codes_pass_validation (U := Py.Ascii7.tables)
                         (P := Samples.no_markup) Samples.year_then_code true)) as H.
    replace (extract_all_codes (U := Py.Ascii7.tables) (P := Samples.no_markup)
               Samples.year_then_code true)
      with (Returned [lit "5678"]) in H by (vm_compute; reflexivity).
    exact H.
Defined.

(** C4, at the input where the code departs from it.  On the body
    "2024 5678" the four-digit pattern matches twice; [extract_code] looks at
    the first match only, finds it invalid and moves on to the next pattern,
    so it returns [None] although the second match, "5678", is valid and is
    what [extract_all_codes] reports. *)
Theorem extract_code_misses_later_match (P : Soup.Parser) :
  let text := lit "2024 5678" in
  map group1
      (finditer (U := Py.Ascii7.tables) (nth 1 (PATTERNS (U := Py.Ascii7.tables)) Eps) text)
  = [Some (lit "2024"); Some (lit "5678")]
  /\ _is_valid_code (lit "5678") = true
  /\ extract_all_codes (U := Py.Ascii7.tables) Samples.year_then_code true
     = Returned [lit "5678"]
  /\ extract_code (U := Py.Ascii7.tables) Samples.year_then_code None true
     = Returned None.
Proof.
  repeat split; vm_compute; reflexivity.
Qed.



Section LinkProperties.
Context {U : Unicode} {P : Soup.Parser}.

(** With a keyword, the loop over the anchors returns the [href] of the first
    anchor whose [href] or text mentions the keyword, whatever that [href]
    is. *)
Lemma first_link_keyword (keyword : str) (links : list Soup.node) :
  first_link (Some keyword) links
  = option_map (Soup.item (lit "href")) (find (mentions keyword) links).
Proof.
  induction links as [| link links IH]; simpl; [reflexivity |].
  unfold mentions at 1. destruct (_ || _); [reflexivity | exact IH].
Qed.

Lemma extract_link_keyword (message : EmailMessage) (keyword html : str)
    (link : Soup.node) :
  body_html message = Some html ->
  truthy html = true ->
  truthy keyword = true ->
  find (mentions keyword) (anchors (Soup.BeautifulSoup html)) = Some link ->
  extract_link message (Some keyword) = Some (Soup.item (lit "href") link).
Proof.
  intros Hh Th Tk F. unfold extract_link. rewrite Hh. simpl. rewrite Th.
  destruct keyword as [| c keyword]; [discriminate |]. simpl given.
  rewrite first_link_keyword. fold (anchors (Soup.BeautifulSoup html)).
  now rewrite F.
Qed.

End LinkProperties.

(** C10. For the message whose HTML body is the one anchor
    [<a href='mailto:verify@example.com'>Contact us</a>], [extract_link] with
    the keyword "verify" returns the [mailto:] address, which is no absolute
    HTTP(S) URL: the keyword branch never looks at the scheme. *)
Theorem extract_link_keyword_returns_any_href (P : Soup.Parser) :
  Soup.BeautifulSoup (lit "<a href='mailto:verify@example.com'>Contact us</a>")
  = Samples.mailto_soup ->
  exists href,
    extract_link (U := Py.Ascii7.tables) Samples.mailto_message (Some (lit "verify"))
    = Some href
    /\ href = lit "mailto:verify@example.com"
    /\ is_http href = false.
Proof.
  intros Parsed. exists (lit "mailto:verify@example.com").
  split; [| split; reflexivity].
  rewrite (@extract_link_keyword Py.Ascii7.tables P Samples.mailto_message
             (lit "verify")
             (lit "<a href='mailto:verify@example.com'>Contact us</a>")
             (hd (Soup.Comment []) Samples.mailto_soup));
    try reflexivity.
  rewrite Parsed. vm_compute. reflexivity.
Qed.

(** The same run under a parser that reads the sample markup. *)
Lemma extract_link_keyword_returns_any_href_witness :
  exists href,
    extract_link (U := Py.Ascii7.tables) (P := Samples.mailto_parser)
      Samples.mailto_message (Some (lit "verify"))
    = Some href
    /\ href = lit "mailto:verify@example.com"
    /\ is_http href = false.
Proof.
  apply (@extract_link_keyword_returns_any_href Samples.mailto_parser).
  vm_compute. reflexivity.
Defined.

(* ===================================================================== *)
(** * Properties of the mailbox provider *)
(* ===================================================================== *)

(** ** Address generation *)

Lemma ascii_lowercase_lowercase : Forall lowercase ascii_lowercase.
Proof.
  apply Forall_forall. intros c H. vm_compute in H. unfold lowercase.
  repeat (destruct H as [<- | H]; [lia |]). contradiction.
Qed.

Lemma run_bind (A B : Type) (c : IO A) (k : A -> IO B) (w : World) :
  bind c k w = k (fst (c w)) (snd (c w)).
Proof. unfold bind. now destruct (c w). Qed.

Lemma choice_In (A : Type) (default : A) (population : list A) (w : World) :
  population <> [] -> In (fst (choice default population w)) population.
Proof.
  intros NE. unfold choice. rewrite run_bind. simpl.
  apply nth_In. apply Nat.mod_upper_bound.
  destruct population; [congruence | discriminate].
Qed.

Lemma choices_spec (A : Type) (default : A) (population : list A) (k : nat) :
  population <> [] ->
  forall w,
    length (fst (choices default population k w)) = k
    /\ Forall (fun x => In x population) (fst (choices default population k w)).
Proof.
  intros NE. induction k as [| k IH]; intros w; simpl.
  - split; [reflexivity | constructor].
  - rewrite !run_bind. unfold ret. cbn [fst snd length].
    destruct (IH (snd (choice default population w))) as [L F].
    split; [now rewrite L |].
    constructor; [now apply choice_In | exact F].
Qed.

(** C7. Whatever the random generator draws, the generated address is
    [local ++ "@" ++ domain] with [local] made of 6 to 10 letters of [a-z]
    and [domain] one of [MAIL_HOSTS]. *)
Theorem generate_random_email_shape (w : World) :
  exists local domain,
    fst (generate_random_email w) = local ++ lit "@" ++ domain
    /\ Forall lowercase local
    /\ 6 <= length local <= 10
    /\ In domain MAIL_HOSTS.
Proof.
  unfold generate_random_email. rewrite !run_bind. unfold ret at 1. cbn [fst].
  assert (6 <= fst (randint 6 10 w) <= 10) as Hn.
  { unfold randint. rewrite run_bind.
    unfold ret, random_below. cbn [fst]. change (10 - 6 + 1) with 5.
    pose proof (Nat.mod_upper_bound (draws w 0) 5). lia. }
  assert (ascii_lowercase <> []) as NE by discriminate.
  assert (MAIL_HOSTS <> []) as NH by discriminate.
  destruct (choices_spec 0%N (fst (randint 6 10 w)) NE (snd (randint 6 10 w)))
    as [L F].
  match goal with
  | |- exists local domain, ?a ++ _ ++ ?b = _ /\ _ => exists a, b
  end.
  split; [reflexivity |].
  unfold str, char in *.
  split; [| split; [rewrite L; exact Hn | now apply choice_In]].
  rewrite Forall_forall in *. intros c Hc.
  apply (proj1 (Forall_forall _ _) ascii_lowercase_lowercase). now apply F.
Qed.

(** ** The registration time *)

Lemma quot_pos_le (a c : Z) (b d : positive) :
  (a * Z.pos d <= c * Z.pos b)%Z ->
  (Z.quot a (Z.pos b) <= Z.quot c (Z.pos d))%Z.
Proof.
  intros H.
  assert (0 < Z.pos b)%Z as Hb by lia. assert (0 < Z.pos d)%Z as Hd by lia.
  destruct (Z.le_gt_cases 0 a) as [Ha | Ha].
  - assert (0 <= c)%Z as Hc by nia.
    rewrite !Z.quot_div_nonneg by lia.
    apply Z.div_le_lower_bound; [lia |].
    pose proof (Z.mul_div_le a (Z.pos b) Hb). nia.
  - destruct (Z.le_gt_cases 0 c) as [Hc | Hc].
    + pose proof (Z.quot_pos c (Z.pos d) Hc Hd).
      assert (Z.quot a (Z.pos b) <= 0)%Z; [| lia].
      rewrite <- (Z.opp_involutive a), Z.quot_opp_l by lia.
      pose proof (Z.quot_pos (- a) (Z.pos b)). lia.
    + rewrite <- (Z.opp_involutive a), <- (Z.opp_involutive c).
      rewrite (Z.quot_opp_l (- a)), (Z.quot_opp_l (- c)) by lia.
      rewrite (Z.quot_div_nonneg (- a)), (Z.quot_div_nonneg (- c)) by lia.
      apply (proj1 (Z.opp_le_mono _ _)).
      apply Z.div_le_lower_bound; [lia |].
      pose proof (Z.mul_div_le (- c) (Z.pos d) Hd). nia.
Qed.

Lemma int_of_le (x y : Q) : (x <= y)%Q -> (int_of x <= int_of y)%Z.
Proof. unfold Qle, int_of. apply quot_pos_le. Qed.

Lemma int_of_inject_Z (z : Z) : int_of (inject_Z z) = z.
Proof. unfold int_of. simpl. apply Z.quot_1_r. Qed.

(** Past zero, [int] is the floor. *)
Lemma int_of_floor (x : Q) :
  (0 <= x)%Q ->
  (0 <= int_of x)%Z
  /\ (inject_Z (int_of x) <= x)%Q /\ (x <= inject_Z (int_of x + 1))%Q.
Proof.
  destruct x as [a b]. unfold Qle, int_of. simpl. intros H.
  rewrite Z.mul_1_r in *.
  rewrite !Z.quot_div_nonneg by lia.
  assert (0 < Z.pos b)%Z as Hb by lia.
  pose proof (Z.div_pos a (Z.pos b) H Hb).
  pose proof (Z.mul_div_le a (Z.pos b) Hb).
  pose proof (Z.mul_succ_div_gt a (Z.pos b) Hb).
  split; [assumption |]. split; nia.
Qed.

Section Milliseconds.
Context {PF : Platform}.


(** It is the exact millisecond or the next one, for a reading between the
    epoch and [2 ^ 53] milliseconds after it. *)
Lemma millis_near (x : Q) :
  (0 <= x)%Q -> (x * 1000 <= inject_Z (2 ^ 53))%Q ->
  (int_of (x * 1000) <= int_of (float_mul x 1000) <= int_of (x * 1000) + 1)%Z.
Proof.
  intros Hx Hr.
  assert (0 <= x * 1000)%Q as Hp
    by (apply Qmult_le_0_compat; [exact Hx | discriminate]).
  destruct (int_of_floor Hp) as (K0 & Lo & Hi).
  assert (int_of (x * 1000) <= 2 ^ 53)%Z as Kr.
  { rewrite Zle_Qle. eapply Qle_trans; [exact Lo | exact Hr]. }
  split.
  - rewrite <- (int_of_inject_Z (int_of (x * 1000))) at 1.
    apply int_of_le.
    apply (float_mul_integer x 1000 (int_of (x * 1000))); [lia | exact Lo].
  - destruct (Z.eq_dec (int_of (x * 1000)) (2 ^ 53)) as [E | N].
    + rewrite <- (int_of_inject_Z (int_of (x * 1000))).
      etransitivity; [| apply Z.le_succ_diag_r].
      apply int_of_le.
      apply (float_mul_integer x 1000 (int_of (x * 1000))); [lia |].
      rewrite E. exact Hr.
    + rewrite <- (int_of_inject_Z (int_of (x * 1000) + 1)).
      apply int_of_le.
      apply (float_mul_integer x 1000 (int_of (x * 1000) + 1)); [lia | exact Hi].
Qed.


End Milliseconds.

Lemma random_below_clock (n : nat) (w : World) :
  clock (snd (random_below n w)) = clock w.
Proof. reflexivity. Qed.

Lemma choice_clock (A : Type) (default : A) (population : list A) (w : World) :
  clock (snd (choice default population w)) = clock w.
Proof. unfold choice. now rewrite run_bind. Qed.

Lemma choices_clock (A : Type) (default : A) (population : list A) (k : nat) :
  forall w, clock (snd (choices default population k w)) = clock w.
Proof.
  induction k as [| k IH]; intros w; simpl; [reflexivity |].
  rewrite !run_bind. unfold ret. cbn [snd]. now rewrite IH, choice_clock.
Qed.

Lemma generate_random_email_clock (w : World) :
  clock (snd (generate_random_email w)) = clock w.
Proof.
  unfold generate_random_email. rewrite !run_bind. unfold ret at 1. cbn [snd].
  rewrite choice_clock, choices_clock. unfold randint. now rewrite run_bind.
Qed.

Section RegistrationTime.
Context {PF : Platform}.



End RegistrationTime.



(** ** Connecting *)

Section ConnectProperties.
Context {U : Unicode} {PF : Platform}.

(** C6, as the code has it.  When the token acquisition fails, [connect]
    returns [False] and leaves the address and the registration time as they
    were; the token attribute holds what the failed acquisition gave, [None]
    or the empty string. *)
Theorem connect_failure_keeps_address (self : MailCxProvider) (w : World) :
  truthy_opt (fst (get_auth_token self w)) = false ->
  fst (fst (connect self w)) = false
  /\ email (snd (fst (connect self w))) = email self
  /\ registration_time (snd (fst (connect self w))) = registration_time self
  /\ auth_token (snd (fst (connect self w))) = fst (get_auth_token self w)
  /\ truthy_opt (auth_token (snd (fst (connect self w)))) = false.
Proof.
  intros Failed. unfold connect. rewrite run_bind.
  cbn [auth_token email]. rewrite Failed. cbn [negb]. unfold ret. cbn [fst snd].
  cbn [email registration_time auth_token]. auto.
Qed.

End ConnectProperties.

(** C6, as stated, fails: a provider that holds the token "abc" has lost it
    after a [connect] whose handshake raised. *)
Lemma connect_failure_drops_token :
  fst (get_auth_token (U := Py.Ascii7.tables) (PF := Exact.platform)
         Worlds.bound (Worlds.silent (Worlds.seconds_from 1700000000)))
  = None
  /\ auth_token Worlds.bound = Some (lit "abc")
  /\ auth_token
       (snd (fst (connect (U := Py.Ascii7.tables) (PF := Exact.platform)
                    Worlds.bound (Worlds.silent (Worlds.seconds_from 1700000000)))))
     = None.
Proof.
  split; [reflexivity |]. split; reflexivity.
Qed.

(** The same failed [connect]: the address and the registration time stay. *)
Lemma connect_failure_keeps_address_witness :
  fst (fst (connect (U := Py.Ascii7.tables) (PF := Exact.platform)
              Worlds.bound (Worlds.silent (Worlds.seconds_from 1700000000))))
  = false
  /\ email
       (snd (fst (connect (U := Py.Ascii7.tables) (PF := Exact.platform)
                    Worlds.bound (Worlds.silent (Worlds.seconds_from 1700000000)))))
     = lit "abcdef@qabq.com"
  /\ registration_time
       (snd (fst (connect (U := Py.Ascii7.tables) (PF := Exact.platform)
                    Worlds.bound (Worlds.silent (Worlds.seconds_from 1700000000)))))
     = Some 1700000000000%Z.
Proof.
  destruct (connect_failure_keeps_address (U := Py.Ascii7.tables)
              (PF := Exact.platform) Worlds.bound
              (Worlds.silent (Worlds.seconds_from 1700000000)))
    as (A & B & C & _).
  - reflexivity.
  - split; [exact A |]. split; [exact B | exact C].
Defined.

(** ** Fetching *)

Section FetchProperties.
Context {PF : Platform}.

(** A provider that holds a token and an address issues the request and
    returns what the [try] block makes of the answer. *)
Lemma get_messages_connected (self : MailCxProvider) (limit : Z)
    (since : option datetime) (w : World) :
  truthy_opt (auth_token self) = true ->
  truthy (email self) = true ->
  fst (get_messages self limit since w)
  = fetch_result self limit since (fetches w 0)
  /\ fetches (snd (get_messages self limit since w)) = tail (fetches w)
  /\ clock (snd (get_messages self limit since w)) = clock w.
Proof.
  intros T E. unfold get_messages. rewrite T, E. cbn [negb].
  rewrite run_bind. unfold ret, session_get_mailbox. cbn [fst snd fetches clock].
  auto.
Qed.

Lemma get_messages_unconnected (self : MailCxProvider) (limit : Z)
    (since : option datetime) (w : World) :
  truthy_opt (auth_token self) && truthy (email self) = false ->
  get_messages self limit since w = ([], w).
Proof.
  intros H. unfold get_messages.
  destruct (truthy_opt (auth_token self)); [| reflexivity].
  simpl in H. now rewrite H.
Qed.

(** An integer is compared with the bound by value. *)
Lemma at_most_int (j : json) (t bound : Z) :
  as_int j = Some t -> at_most j bound = Some (Z.leb t bound).
Proof.
  destruct j; cbn [as_int at_most option_map]; try discriminate;
    intros [= <-]; reflexivity.
Qed.

(** Under a bound in force, and on records whose time stamp is missing or an
    integer, the loop is a filter followed by the conversion. *)
Lemma convert_filter (self : MailCxProvider) (bound : Z) (data : list record) :
  bound <> 0%Z ->
  Forall (fun r => as_int (msg_time r) <> None) data ->
  convert self (Some bound) data
  = Some (map (fun r => to_message self r (parse_time (msg_time r)))
            (filter (fun r => negb (Z.leb (stamp r) bound)) data)).
Proof.
  intros NZ. induction data as [| r data IH]; intros WF; [reflexivity |].
  inversion WF as [| ? ? Hr Hdata]; subst. specialize (IH Hdata).
  cbn [convert filter]. fold (msg_time r). unfold too_old.
  destruct (Z.eqb_spec bound 0) as [? | _]; [contradiction |].
  unfold stamp. destruct (as_int (msg_time r)) as [t |] eqn:A; [| contradiction].
  rewrite (at_most_int _ bound A).
  cbn [get]. destruct (Z.leb t bound); cbn [negb].
  - exact IH.
  - rewrite IH. reflexivity.
Qed.

(** C2, as the code has it.  With a lower bound in force, and every time
    stamp of [data[:limit]] missing or an integer, the records of
    [data[:limit]] are kept or dropped by value: a record is dropped exactly
    when its time stamp, taken as 0 when the field is missing, is at most the
    bound.  A record without
    time stamp is therefore dropped by every positive bound; where it is
    kept, its message has no [received_at]. *)
Theorem get_messages_time_filter (self : MailCxProvider) (limit : Z)
    (since : option datetime) (w : World) (data : list record) (bound : Z) :
  truthy_opt (auth_token self) = true ->
  truthy (email self) = true ->
  fetches w 0 = Response 200 (Some data) ->
  since_millis_of self since = Some bound ->
  bound <> 0%Z ->
  Forall (fun r => as_int (msg_time r) <> None) (slice_to limit data) ->
  fst (get_messages self limit since w)
  = map (fun r => to_message self r (parse_time (msg_time r)))
      (filter (fun r => negb (Z.leb (stamp r) bound)) (slice_to limit data))
  /\ (forall r, r_posix_millis r = None ->
        stamp r = 0%Z
        /\ received_at (to_message self r (parse_time (msg_time r))) = None).
Proof.
  intros T E F B NZ WF. split.
  - destruct (get_messages_connected self limit since w T E) as (-> & _).
    rewrite F. unfold fetch_result. cbn [Z.eqb negb]. rewrite B.
    now rewrite (convert_filter self NZ WF).
  - intros r A. unfold stamp, msg_time. rewrite A. split; reflexivity.
Qed.

End FetchProperties.

(** C2, as stated, fails: under the bound that the registration time sets,
    the record without time stamp is dropped. *)
Lemma get_messages_drops_unstamped :
  r_posix_millis Worlds.unstamped = None
  /\ since_millis_of Worlds.bound None = Some 1700000000000%Z
  /\ fst (get_messages (PF := Exact.platform)
            Worlds.bound 10 None
            (Worlds.inbox 1700000010 [[Worlds.unstamped]]))
     = [].
Proof.
  split; [reflexivity |]. split; reflexivity.
Qed.

(** A batch of three under the bound of the registration time: the record
    without time stamp goes, the two later ones stay. *)
Lemma get_messages_time_filter_witness :
  fst (get_messages (PF := Exact.platform)
         Worlds.bound 10 None
         (Worlds.inbox 1700000010 [[Worlds.unstamped; Worlds.early; Worlds.late]]))
  = [to_message Worlds.bound Worlds.early
       (Some {| timestamp_millis := 1700000005000 |});
     to_message Worlds.bound Worlds.late
       (Some {| timestamp_millis := 1700000020000 |})].
Proof.
  destruct (get_messages_time_filter (PF := Exact.platform) Worlds.bound 10 None
              (Worlds.inbox 1700000010 [[Worlds.unstamped; Worlds.early; Worlds.late]])
              (data := [Worlds.unstamped; Worlds.early; Worlds.late])
              (bound := 1700000000000%Z)) as [R _].
  - reflexivity.
  - reflexivity.
  - reflexivity.
  - reflexivity.
  - discriminate.
  - repeat constructor; discriminate.
  - rewrite R. reflexivity.
Defined.

(** C5, at the input where the code departs from it.  The provider has a
    registration time, and the reply holds a record whose time stamp is a
    string, followed by a regular record.  The comparison of the string with
    the bound raises before the guarded conversion is reached, and the whole
    fetch comes back empty; the regular record alone is returned, and so are
    both records when no bound is in force, the first one without
    [received_at]. *)
Theorem get_messages_malformed_stamp_empties_batch :
  fst (get_messages (PF := Exact.platform)
         Worlds.bound 10 None
         (Worlds.inbox 1700000010 [[Worlds.malformed; Worlds.late]]))
  = []
  /\ fst (get_messages (PF := Exact.platform)
            Worlds.bound 10 None
            (Worlds.inbox 1700000010 [[Worlds.late]]))
     = [to_message Worlds.bound Worlds.late
          (Some {| timestamp_millis := 1700000020000 |})]
  /\ fst (get_messages (PF := Exact.platform)
            Worlds.unregistered 10 None
            (Worlds.inbox 1700000010 [[Worlds.malformed; Worlds.late]]))
     = [to_message Worlds.unregistered Worlds.malformed None;
        to_message Worlds.unregistered Worlds.late
          (Some {| timestamp_millis := 1700000020000 |})].
Proof.
  split; [reflexivity |]. split; reflexivity.
Qed.

(** ** Waiting *)

Section WaitProperties.
Context {U : Unicode} {PF : Platform}.

Variables (wait_start_millis : Z) (filter_subject filter_sender : option str).

Let check := check_messages wait_start_millis filter_subject filter_sender.

(** The message that the [for] loop returns is new to the set of seen ids
    and to the part of the batch before it, and is not older than the start
    of the wait. *)
Lemma check_messages_found (messages : list EmailMessage) :
  forall seen_ids msg seen_ids',
    check messages seen_ids = (Some msg, seen_ids') ->
    exists earlier later,
      messages = earlier ++ msg :: later
      /\ ~ In (id msg) seen_ids
      /\ (forall m, In m earlier -> id m <> id msg)
      /\ (forall dt, received_at msg = Some dt ->
            (wait_start_millis <= timestamp_millis dt)%Z).
Proof.
  assert (forall m messages' seen_ids msg,
             (exists earlier later,
                 messages' = earlier ++ msg :: later
                 /\ ~ In (id msg) (id m :: seen_ids)
                 /\ (forall m', In m' earlier -> id m' <> id msg)
                 /\ (forall dt, received_at msg = Some dt ->
                       (wait_start_millis <= timestamp_millis dt)%Z)) ->
             exists earlier later,
               m :: messages' = earlier ++ msg :: later
               /\ ~ In (id msg) seen_ids
               /\ (forall m', In m' earlier -> id m' <> id msg)
               /\ (forall dt, received_at msg = Some dt ->
                     (wait_start_millis <= timestamp_millis dt)%Z)) as Skip.
  { intros m messages' seen_ids msg (earlier & later & E & NI & Old & T).
    exists (m :: earlier), later. split; [now rewrite E |].
    split; [intros H; apply NI; now right |]. split; [| exact T].
    intros m' [<- | H]; [| now apply Old].
    intros Same. apply NI. now left. }
  induction messages as [| m messages IH]; intros seen_ids msg seen_ids';
    unfold check in *; cbn [check_messages]; [discriminate |].
  destruct (mem (id m) seen_ids) eqn:Seen.
  - intros H. apply IH in H. destruct H as (earlier & later & E & NI & Old & T).
    exists (m :: earlier), later. split; [now rewrite E |].
    split; [exact NI |]. split; [| exact T].
    intros m' [<- | H]; [| now apply Old].
    intros Same. apply NI. rewrite <- Same. now apply mem_In.
  - destruct (match received_at m with
              | Some dt => Z.ltb (timestamp_millis dt) wait_start_millis
              | None => false
              end) eqn:Stale;
      [intros H; apply Skip; eapply IH; exact H |].
    destruct (filtered_out filter_subject (subject m));
      [intros H; apply Skip; eapply IH; exact H |].
    destruct (filtered_out filter_sender (sender m));
      [intros H; apply Skip; eapply IH; exact H |].
    intros H. injection H as <- _. exists [], messages.
    split; [reflexivity |].
    split; [intros H; apply mem_In in H; congruence |].
    split; [intros ? [] |].
    intros dt R. rewrite R in Stale. apply Z.ltb_ge in Stale. exact Stale.
Qed.

(** When the loop returns nothing, every id of the batch has joined the set. *)
Lemma check_messages_none (messages : list EmailMessage) :
  forall seen_ids seen_ids',
    check messages seen_ids = (None, seen_ids') ->
    (forall x, In x seen_ids -> In x seen_ids')
    /\ (forall m, In m messages -> In (id m) seen_ids').
Proof.
  induction messages as [| m messages IH]; intros seen_ids seen_ids';
    unfold check in *; cbn [check_messages].
  - intros H. injection H as <-. split; [auto | intros ? []].
  - assert (forall seen0,
               (forall x, In x (id m :: seen_ids) -> In x seen0)
               /\ (forall m', In m' messages -> In (id m') seen0) ->
               (forall x, In x seen_ids -> In x seen0)
               /\ (forall m', In m' (m :: messages) -> In (id m') seen0)) as Skip.
    { intros seen0 [Sub All]. split; [intros x H; apply Sub; now right |].
      intros m' [<- | H]; [apply Sub; now left | now apply All]. }
    destruct (mem (id m) seen_ids) eqn:Seen.
    + intros H. apply IH in H. destruct H as [Sub All]. split; [exact Sub |].
      intros m' [<- | H]; [apply Sub; now apply mem_In | now apply All].
    + destruct (match received_at m with
                | Some dt => Z.ltb (timestamp_millis dt) wait_start_millis
                | None => false
                end);
        [intros H; apply Skip; eapply IH; exact H |].
      destruct (filtered_out filter_subject (subject m));
        [intros H; apply Skip; eapply IH; exact H |].
      destruct (filtered_out filter_sender (sender m));
        [intros H; apply Skip; eapply IH; exact H |].
      discriminate.
Qed.

Variables (self : MailCxProvider) (start_time : Q) (timeout interval : Z).

Let loop (fuel : nat) :=
  wait_loop fuel self start_time wait_start_millis timeout interval
    filter_subject filter_sender.

(** A provider without token or address polls nothing and finds nothing. *)
Lemma wait_loop_unconnected (fuel : nat) :
  truthy_opt (auth_token self) && truthy (email self) = false ->
  forall seen_ids w msg w',
    loop fuel seen_ids w <> (Some (Returned (Some msg)), w').
Proof.
  intros Off. induction fuel as [| fuel IH]; intros seen_ids w msg w';
    unfold loop in *; cbn [wait_loop]; [discriminate |].
  rewrite run_bind.
  destruct (Qltb _ _); [| discriminate].
  destruct (Z.ltb interval 0); [discriminate |].
  rewrite run_bind, (get_messages_unconnected self 20 None _ Off).
  cbn [fst snd check_messages]. rewrite run_bind. apply IH.
Qed.

(** The invariant of the [while] loop: the message returned comes from some
    later poll, is new to the set of seen ids, to the polls before and to the
    part of its own batch before it. *)
Lemma wait_loop_found (fuel : nat) :
  truthy_opt (auth_token self) = true ->
  truthy (email self) = true ->
  forall seen_ids w msg w',
    loop fuel seen_ids w = (Some (Returned (Some msg)), w') ->
    exists k earlier later,
      polled self w k = earlier ++ msg :: later
      /\ ~ In (id msg) seen_ids
      /\ (forall m, In m earlier -> id m <> id msg)
      /\ (forall j m, j < k -> In m (polled self w j) -> id m <> id msg)
      /\ (forall dt, received_at msg = Some dt ->
            (wait_start_millis <= timestamp_millis dt)%Z).
Proof.
  intros T E. induction fuel as [| fuel IH]; intros seen_ids w msg w';
    unfold loop in *; cbn [wait_loop]; [discriminate |].
  rewrite run_bind.
  destruct (Qltb _ _); [| discriminate].
  destruct (Z.ltb interval 0); [discriminate |].
  rewrite run_bind.
  set (w1 := snd (time_time w)).
  destruct (get_messages_connected self 20 None w1 T E) as (B & F & _).
  rewrite B. fold (polled self w1 0).
  assert (forall k, polled self w1 k = polled self w k) as Same by reflexivity.
  rewrite Same.
  fold check.
  destruct (check (polled self w 0) seen_ids) as [[found |] seen_ids'] eqn:C.
  - intros H. injection H as <- _.
    apply check_messages_found in C.
    destruct C as (earlier & later & Eq & NI & Old & Tm).
    exists 0, earlier, later. repeat split; try assumption.
    intros j m Hj. lia.
  - apply check_messages_none in C. destruct C as [Sub All].
    rewrite run_bind. intros H. apply IH in H.
    destruct H as (k & earlier & later & Eq & NI & Old & Before & Tm).
    assert (forall j, polled self (snd (time_time (snd (get_messages self 20 None w1)))) j
                      = polled self w (S j)) as Shift.
    { intros j. unfold polled. cbn [time_time snd fetches]. now rewrite F. }
    exists (S k), earlier, later.
    split; [now rewrite <- Shift |].
    split; [intros H; apply NI; now apply Sub |].
    split; [exact Old |]. split; [| exact Tm].
    intros [| j] m Hj Hm.
    + intros Id. apply NI. rewrite <- Id. now apply All.
    + apply (Before j m); [lia |]. now rewrite Shift.
Qed.

Lemma get_messages_clock (limit : Z) (since : option datetime) (w : World) :
  clock (snd (get_messages self limit since w)) = clock w.
Proof.
  unfold get_messages.
  destruct (negb (truthy_opt (auth_token self))); [reflexivity |].
  destruct (negb (truthy (email self))); [reflexivity |].
  now rewrite run_bind.
Qed.

(** The loop ends within [fuel] rounds as soon as one of the first [fuel]
    readings of the clock at the head of a round is past the deadline. *)
Lemma wait_loop_finishes (fuel : nat) :
  forall n seen_ids w,
    n < fuel ->
    Qltb (clock w (2 * n) - start_time) (inject_Z timeout) = false ->
    fst (loop fuel seen_ids w) <> None.
Proof.
  induction fuel as [| fuel IH]; intros n seen_ids w Hn Late; [lia |].
  unfold loop in *. cbn [wait_loop]. rewrite run_bind.
  change (fst (time_time w)) with (clock w 0).
  destruct (Qltb (clock w 0 - start_time) (inject_Z timeout)) eqn:Guard;
    [| discriminate].
  destruct n as [| n]; [cbn in Late; congruence |].
  destruct (Z.ltb interval 0); [discriminate |].
  rewrite run_bind.
  destruct (check_messages _ _ _ _ _) as [[found |] seen_ids']; [discriminate |].
  rewrite run_bind. apply (IH n); [lia |].
  cbn [time_time snd clock]. rewrite get_messages_clock.
  cbn [time_time snd clock]. unfold tail.
  replace (2 * S n) with (S (S (2 * n))) in Late by lia. exact Late.
Qed.

End WaitProperties.

(** X20. [wait_for_message] ends: it returns, with a message, with [None]
    or with the exception of [time.sleep], within [n + 1] rounds when the
    clock read at the head of round [n + 1] is past the deadline. *)
Lemma wait_for_message_finishes {U : Unicode} {PF : Platform}
    (fuel n : nat) (self : MailCxProvider) (timeout interval : Z)
    (filter_subject filter_sender : option str) (w : World) :
  n < fuel ->
  Qltb (clock w (2 + 2 * n) - clock w 0) (inject_Z timeout) = false ->
  fst (wait_for_message fuel self timeout interval filter_subject filter_sender w)
  <> None.
Proof.
  intros Hn Late. unfold wait_for_message. rewrite !run_bind.
  eapply wait_loop_finishes; [exact Hn |]. exact Late.
Qed.

(** C1. The message that [wait_for_message] returns is taken from one of the
    polls of the call; its [id] is carried by no message of the polls before
    and by no message before it in its own poll, and its [received_at], when
    present, is not earlier in epoch milliseconds than the instant recorded
    when the call began: [int(time.time() * 1000)] as the machine computes
    it, which is not below the exact millisecond of the reading (for a
    reading between the epoch and [2 ^ 53] milliseconds after it). *)
Theorem wait_for_message_returns_fresh {U : Unicode} {PF : Platform}
    (fuel : nat) (self : MailCxProvider) (timeout interval : Z)
    (filter_subject filter_sender : option str) (w : World) (msg : EmailMessage) :
  fst (wait_for_message fuel self timeout interval filter_subject filter_sender w)
  = Some (Returned (Some msg)) ->
  exists k earlier later,
    polled self w k = earlier ++ msg :: later
    /\ (forall m, In m earlier -> id m <> id msg)
    /\ (forall j m, j < k -> In m (polled self w j) -> id m <> id msg)
    /\ (forall dt, received_at msg = Some dt ->
          (int_of (float_mul (clock w 1) 1000) <= timestamp_millis dt)%Z
          /\ ((0 <= clock w 1)%Q ->
              (clock w 1 * 1000 <= inject_Z (2 ^ 53))%Q ->
              (int_of (clock w 1 * 1000) <= timestamp_millis dt)%Z)).
Proof.
  unfold wait_for_message. rewrite !run_bind. intros H.
  set (w2 := snd (time_time (snd (time_time w)))) in H.
  change (fst (time_time (snd (time_time w)))) with (clock w 1) in H.
  destruct (wait_loop fuel self (fst (time_time w))
              (int_of (float_mul (clock w 1) 1000))
              timeout interval filter_subject filter_sender [] w2)
    as [out w'] eqn:L.
  cbn [fst] in H. subst out.
  destruct (truthy_opt (auth_token self) && truthy (email self)) eqn:On.
  - apply andb_true_iff in On as [T E].
    eapply wait_loop_found in L; try eassumption.
    destruct L as (k & earlier & later & Eq & _ & Old & Before & Tm).
    exists k, earlier, later.
    split; [exact Eq |]. split; [exact Old |]. split; [exact Before |].
    intros dt R. specialize (Tm dt R). split; [exact Tm |].
    intros Pos Range. pose proof (millis_near Pos Range). lia.
  - exfalso. eapply wait_loop_unconnected; [exact On | exact L].
Qed.

(** A wait of two polls: the first brings a message older than the wait,
    the second brings it again with a new one, which is returned. *)
Lemma wait_for_message_returns_fresh_witness :
  exists k earlier later,
    polled (PF := Exact.platform) Worlds.bound
      (Worlds.inbox 1700000010 [[Worlds.early]; [Worlds.early; Worlds.late]]) k
    = earlier
      ++ to_message Worlds.bound Worlds.late
           (Some {| timestamp_millis := 1700000020000 |})
      :: later
    /\ (forall m, In m earlier -> id m <> lit "m3")
    /\ (forall j m, j < k ->
          In m (polled (PF := Exact.platform) Worlds.bound
                  (Worlds.inbox 1700000010 [[Worlds.early]; [Worlds.early; Worlds.late]]) j) ->
          id m <> lit "m3")
    /\ (forall dt, Some {| timestamp_millis := 1700000020000 |} = Some dt ->
          (1700000011000 <= timestamp_millis dt)%Z).
Proof.
  destruct (wait_for_message_returns_fresh (U := Py.Ascii7.tables)
              (PF := Exact.platform) 3 Worlds.bound 60 5 None None
              (Worlds.inbox 1700000010 [[Worlds.early]; [Worlds.early; Worlds.late]])
              (msg := to_message Worlds.bound Worlds.late
                        (Some {| timestamp_millis := 1700000020000 |})))
    as (k & earlier & later & Eq & Old & Before & Tm).
  - vm_compute. reflexivity.
  - exists k, earlier, later.
    split; [exact Eq |]. split; [exact Old |]. split; [exact Before |].
    intros dt R. exact (proj1 (Tm dt R)).
Defined.

(* ===================================================================== *)
(** * Further properties of the code extractor *)
(* ===================================================================== *)

Lemma firstn_consumed (c s : str) :
  firstn (length (c ++ s) - length s) (c ++ s) = c.
Proof.
  rewrite length_app, Nat.add_sub. rewrite firstn_app, Nat.sub_diag.
  rewrite firstn_all. cbn [firstn]. apply app_nil_r.
Qed.

Lemma occurs_in_suffix (t s skipped : str) :
  occurs_in t s -> occurs_in t (skipped ++ s).
Proof.
  intros (a & b & ->). exists (skipped ++ a), b. now rewrite app_assoc.
Qed.

Section MatcherSoundness.
Context {U : Unicode}.

(** What group 1 holds after a run that started with [g] at the text [s]:
    what it held before, or a text that the pattern can capture and that
    occurs in [s]. *)
Definition group_from (r : regex) (s : str) (g g' : option str) : Prop :=
  g' = g \/ exists t, g' = Some t /\ captured r t /\ occurs_in t s.

(** The matcher is sound: a successful run ends in a call of the
    continuation at a position reached by consuming a text of the pattern's
    language. *)
Lemma run_sound (r : regex) :
  forall (R : Type) (p : pos) (g : option str)
         (k : pos -> option str -> option R) (x : R),
    run r p g k = Some x ->
    exists p' g' c,
      k p' g' = Some x
      /\ rest p = c ++ rest p'
      /\ lang r c
      /\ group_from r (rest p) g g'.
Proof.
  induction r as [| f | r1 IH1 r2 IH2 | r1 IH1 r2 IH2 | r1 IH1 lo hi | r1 IH1 |];
    intros R p g k x; cbn [run lang].
  - intros H. exists p, g, []. repeat split; try assumption. now left.
  - destruct (rest p) as [| ch s'] eqn:E; [discriminate |].
    destruct (f ch) eqn:F; [| discriminate].
    intros H. exists (step ch s'), g, [ch].
    split; [exact H |]. split; [reflexivity |].
    split; [now exists ch | now left].
  - intros H. apply IH1 in H. destruct H as (p1 & g1 & c1 & H & E1 & L1 & G1).
    apply IH2 in H. destruct H as (p2 & g2 & c2 & H & E2 & L2 & G2).
    exists p2, g2, (c1 ++ c2).
    split; [exact H |]. split; [now rewrite E1, E2, app_assoc |].
    split; [now exists c1, c2 |].
    destruct G2 as [-> | (t & -> & Ct & Ot)].
    + destruct G1 as [-> | (t & -> & Ct & Ot)]; [now left |].
      right. exists t. repeat split; [now left | exact Ot].
    + right. exists t. repeat split; [now right |].
      rewrite E1. now apply occurs_in_suffix.
  - destruct (run r1 p g k) as [y |] eqn:First.
    + intros H. injection H as ->. apply IH1 in First.
      destruct First as (p1 & g1 & c1 & H & E1 & L1 & G1).
      exists p1, g1, c1. repeat split; try assumption; [now left |].
      destruct G1 as [-> | (t & -> & Ct & Ot)]; [now left |].
      right. exists t. repeat split; [now left | exact Ot].
    + intros H. apply IH2 in H.
      destruct H as (p2 & g2 & c2 & H & E2 & L2 & G2).
      exists p2, g2, c2. repeat split; try assumption; [now right |].
      destruct G2 as [-> | (t & -> & Ct & Ot)]; [now left |].
      right. exists t. repeat split; [now right | exact Ot].
  - assert (forall fuel n p g,
      (fix loop (fuel n : nat) (p : pos) (g : option str) {struct fuel}
         : option R :=
         let stop := if Nat.leb lo n then k p g else None in
         match fuel with
         | O => stop
         | S fuel' =>
             if below n hi then
               match run r1 p g (fun p' g' =>
                       if Nat.ltb n lo || Nat.ltb (length (rest p')) (length (rest p))
                       then loop fuel' (S n) p' g'
                       else None) with
               | Some x => Some x
               | None => stop
               end
             else stop
         end) fuel n p g = Some x ->
      exists p' g' parts,
        k p' g' = Some x
        /\ rest p = concat parts ++ rest p'
        /\ Forall (lang r1) parts
        /\ lo <= n + length parts
        /\ (forall h, hi = Some h -> n <= h -> n + length parts <= h)
        /\ group_from (Rep r1 lo hi) (rest p) g g') as Loop.
    { induction fuel as [| fuel IHf]; intros n p0 g0.
      - destruct (Nat.leb_spec lo n) as [Le | Gt]; [| discriminate].
        intros H. exists p0, g0, []. cbn [concat length app].
        split; [exact H |]. split; [reflexivity |]. split; [constructor |].
        split; [lia |]. split; [intros; lia | now left].
      - assert ((if Nat.leb lo n then k p0 g0 else None) = Some x ->
                exists p' g' parts,
                  k p' g' = Some x
                  /\ rest p0 = concat parts ++ rest p'
                  /\ Forall (lang r1) parts
                  /\ lo <= n + length parts
                  /\ (forall h, hi = Some h -> n <= h -> n + length parts <= h)
                  /\ group_from (Rep r1 lo hi) (rest p0) g0 g') as Stop.
        { destruct (Nat.leb_spec lo n) as [Le | Gt]; [| discriminate].
          intros H. exists p0, g0, []. cbn [concat length app].
          split; [exact H |]. split; [reflexivity |]. split; [constructor |].
          split; [lia |]. split; [intros; lia | now left]. }
        destruct (below n hi) eqn:B; [| exact Stop]. cbv zeta.
        match goal with
        | |- match ?call with _ => _ end = _ -> _ =>
            destruct call as [y |] eqn:Step
        end; [| exact Stop].
        intros H. injection H as ->. apply IH1 in Step.
        destruct Step as (p1 & g1 & c1 & H & E1 & L1 & G1).
        destruct (Nat.ltb n lo || Nat.ltb (length (rest p1)) (length (rest p0)));
          [| discriminate].
        apply IHf in H.
        destruct H as (p2 & g2 & parts & H & E2 & F & Lo & Hi & G2).
        exists p2, g2, (c1 :: parts). cbn [concat length].
        split; [exact H |].
        split; [now rewrite E1, E2, app_assoc |].
        split; [now constructor |].
        split; [lia |].
        split.
        { intros h Eh Le. subst hi. cbn [below] in B.
          apply Nat.ltb_lt in B. specialize (Hi h eq_refl). lia. }
        destruct G2 as [-> | (t & -> & Ct & Ot)].
        + destruct G1 as [-> | (t & -> & Ct & Ot)]; [now left |].
          right. exists t. repeat split; assumption.
        + right. exists t. repeat split; [exact Ct |].
          rewrite E1. now apply occurs_in_suffix. }
    intros H. apply Loop in H.
    destruct H as (p' & g' & parts & H & E & F & Lo & Hi & G).
    exists p', g', (concat parts).
    split; [exact H |]. split; [exact E |]. split; [| exact G].
    exists parts. split; [reflexivity |]. split; [exact F |]. split; [lia |].
    intros h Eh. specialize (Hi h Eh). lia.
  - intros H. apply IH1 in H. destruct H as (p1 & g1 & c1 & H & E1 & L1 & _).
    exists p1, (Some c1), c1.
    split; [now rewrite E1, firstn_consumed in H |].
    repeat split; try assumption.
    right. exists c1. repeat split; [exact L1 |].
    exists [], (rest p1). now rewrite E1.
  - destruct (at_boundary p); [| discriminate].
    intros H. exists p, g, []. repeat split; try assumption. now left.
Qed.

Lemma match_at_sound (r : regex) (must_advance : bool) (p : pos) (m : match_) :
  match_at r must_advance p = Some m ->
  rest p = group0 m ++ rest (stop_at m)
  /\ lang r (group0 m)
  /\ group_from r (rest p) None (group1 m).
Proof.
  unfold match_at. intros H. apply run_sound in H.
  destruct H as (p' & g' & c & H & E & L & G).
  destruct (must_advance && _); [discriminate |].
  injection H as <-. cbn [group0 group1 stop_at].
  rewrite E in G |- *. rewrite firstn_consumed. auto.
Qed.

Lemma scan_sound (r : regex) (s : str) :
  forall must_advance b m,
    scan r must_advance b s = Some m ->
    (exists skipped, s = skipped ++ group0 m ++ rest (stop_at m))
    /\ lang r (group0 m)
    /\ group_from r s None (group1 m).
Proof.
  induction s as [| ch s IH]; intros must_advance b m; cbn [scan];
    destruct (match_at r must_advance _) as [m' |] eqn:M; try discriminate.
  - intros H. injection H as <-. apply match_at_sound in M.
    destruct M as (E & L & G). cbn [rest] in *. split; [now exists [] | auto].
  - intros H. injection H as <-. apply match_at_sound in M.
    destruct M as (E & L & G). cbn [rest] in *. split; [now exists [] | auto].
  - intros H. apply IH in H. destruct H as ((skipped & E) & L & G).
    split; [exists (ch :: skipped); now rewrite E |]. split; [exact L |].
    destruct G as [-> | (t & -> & Ct & Ot)]; [now left |].
    right. exists t. repeat split; [exact Ct |].
    now apply (occurs_in_suffix [ch]).
Qed.

(** Every match that [finditer] lists consumes a text of the pattern's
    language, and its group 1, when set, is a text the pattern can capture
    that occurs in the text searched. *)
Lemma finditer_sound (r : regex) (text : str) :
  Forall (fun m => lang r (group0 m) /\ group_from r text None (group1 m))
    (finditer r text).
Proof.
  unfold finditer.
  assert (forall fuel must_advance p skipped,
             text = skipped ++ rest p ->
             Forall (fun m => lang r (group0 m)
                              /\ group_from r text None (group1 m))
               (finditer_from fuel r must_advance p)) as Loop.
  { induction fuel as [| fuel IH]; intros must_advance p skipped E;
      cbn [finditer_from]; [constructor |].
    destruct (scan r must_advance (before p) (rest p)) as [m |] eqn:M;
      [| constructor].
    apply scan_sound in M. destruct M as ((skipped' & E') & L & G).
    constructor.
    - split; [exact L |].
      destruct G as [-> | (t & -> & Ct & Ot)]; [now left |].
      right. exists t. repeat split; [exact Ct |].
      rewrite E. now apply occurs_in_suffix.
    - apply (IH _ _ (skipped ++ skipped' ++ group0 m)).
      rewrite E, E'. now rewrite <- !app_assoc. }
  now apply (Loop _ _ _ []).
Qed.

(** The first match that [finditer] lists is the one that [search] finds. *)
Lemma finditer_head (r : regex) (text : str) (m : match_) :
  search r text = Some m -> exists later, finditer r text = m :: later.
Proof.
  intros H. unfold finditer.
  replace (2 * length text + 2) with (S (2 * length text + 1)) by lia.
  cbn [finditer_from before rest]. unfold search in H. rewrite H. eauto.
Qed.

Lemma captured_needs_group (r : regex) (t : str) :
  has_group r = false -> ~ captured r t.
Proof.
  induction r as [| f | r1 IH1 r2 IH2 | r1 IH1 r2 IH2 | r1 IH1 lo hi | r1 IH1 |];
    cbn [has_group captured]; try tauto; try discriminate.
  - intros H. apply orb_false_iff in H as [H1 H2]. tauto.
  - intros H. apply orb_false_iff in H as [H1 H2]. tauto.
Qed.

(** A repetition of one character class consumes that many characters of
    the class. *)
Lemma lang_rep_chr (f : char -> bool) (lo : nat) (hi : option nat) (t : str) :
  lang (Rep (Chr f) lo hi) t ->
  Forall (fun c => f c = true) t
  /\ lo <= length t
  /\ (forall h, hi = Some h -> length t <= h).
Proof.
  cbn [lang]. intros (parts & -> & F & Lo & Hi).
  assert (Forall (fun c => f c = true) (concat parts)
          /\ length (concat parts) = length parts) as [A B].
  { clear Lo Hi. induction F as [| part parts (ch & -> & Fc) F IH];
      [split; [constructor | reflexivity] |].
    destruct IH as [A B]. cbn [concat app length].
    split; [now constructor | now rewrite B]. }
  rewrite B. auto.
Qed.

End MatcherSoundness.

Section CodeProperties.
Context {U : Unicode} {P : Soup.Parser}.

(** ** Where a code comes from *)

(** A code that the default loop returns is the valid group of the leftmost
    match of one of the patterns. *)
Lemma try_patterns_source (patterns : list regex) (text code : str) :
  try_patterns patterns text = Returned (Some code) ->
  exists p m,
    In p patterns /\ search p text = Some m /\ group1 m = Some code
    /\ _is_valid_code code = true.
Proof.
  induction patterns as [| p patterns IH]; cbn [try_patterns]; [discriminate |].
  assert (try_patterns patterns text = Returned (Some code) ->
          exists q m,
            In q (p :: patterns) /\ search q text = Some m
            /\ group1 m = Some code /\ _is_valid_code code = true) as Next.
  { intros H. destruct (IH H) as (q & m & I & S & G & V).
    exists q, m. repeat split; try assumption. now right. }
  destruct (search p text) as [m |] eqn:S; [| exact Next].
  unfold group_1. destruct (has_group p); [| discriminate].
  destruct (group1 m) as [c |] eqn:G; [| discriminate].
  destruct (_is_valid_code c) eqn:V; [| exact Next].
  intros H. injection H as <-. exists p, m. repeat split; try assumption.
  now left.
Qed.

Lemma search_group_occurs (p : regex) (text : str) (m : match_) (code : str) :
  search p text = Some m -> group1 m = Some code ->
  captured p code /\ occurs_in code text.
Proof.
  intros S G. unfold search in S. apply scan_sound in S.
  destruct S as (_ & _ & [N | (t & E & Ct & Ot)]); [congruence |].
  rewrite G in E. injection E as <-. auto.
Qed.

Lemma finditer_group_occurs (p : regex) (text : str) (m : match_) (code : str) :
  In m (finditer p text) -> group1 m = Some code ->
  captured p code /\ occurs_in code text.
Proof.
  intros I G. pose proof (finditer_sound p text) as F.
  rewrite Forall_forall in F. destruct (F m I) as (_ & [N | (t & E & Ct & Ot)]);
    [congruence |].
  rewrite G in E. injection E as <-. auto.
Qed.

(** What holds of the group of every match holds of every code collected. *)
Lemma collect_Forall (Q : str -> Prop) (p : regex) (matches : list match_) :
  (forall m code, In m matches -> group1 m = Some code -> Q code) ->
  forall codes seen codes' seen',
    Forall Q codes ->
    collect p matches codes seen = Returned (codes', seen') ->
    Forall Q codes'.
Proof.
  induction matches as [| m matches IH]; intros HQ codes seen codes' seen' F;
    cbn [collect].
  - intros E. injection E as <- <-. exact F.
  - assert (forall m' code, In m' matches -> group1 m' = Some code -> Q code)
      as HQ' by (intros m' code I; apply HQ; now right).
    unfold group_1. destruct (has_group p); [| discriminate].
    destruct (group1 m) as [c |] eqn:G; [| discriminate].
    destruct (negb (mem c seen) && _is_valid_code c).
    + apply (IH HQ'). constructor; [| exact F]. apply (HQ m); [now left | exact G].
    + now apply (IH HQ').
Qed.

Lemma collect_all_Forall (Q : str -> Prop) (text : str) (patterns : list regex) :
  (forall p m code,
      In p patterns -> In m (finditer p text) -> group1 m = Some code -> Q code) ->
  forall codes seen out,
    Forall Q codes ->
    collect_all patterns text codes seen = Returned out ->
    Forall Q out.
Proof.
  induction patterns as [| p patterns IH]; intros HQ codes seen out F;
    cbn [collect_all].
  - intros E. injection E as <-. now apply Forall_rev.
  - destruct (collect p (finditer p text) codes seen) as [[codes' seen'] | e] eqn:C;
      [| discriminate].
    apply IH; [intros q m code I; apply HQ; now right |].
    eapply collect_Forall; [| exact F | exact C].
    intros m code I G. apply (HQ p m code); [now left | exact I | exact G].
Qed.

(** X1. A code is never made up: what [extract_code] returns, with the
    default table or with a custom pattern, and every code that
    [extract_all_codes] lists, occurs as a contiguous part of the text
    searched. *)
Theorem extracted_codes_occur_in_text (message : EmailMessage)
    (pattern : option regex) (use_html : bool) :
  (forall code,
      extract_code message pattern use_html = Returned (Some code) ->
      occurs_in code (search_text message use_html))
  /\ (forall all_codes,
      extract_all_codes message use_html = Returned all_codes ->
      Forall (fun code => occurs_in code (search_text message use_html)) all_codes).
Proof.
  split.
  - intros code. unfold extract_code. destruct pattern as [p |].
    + destruct (search p (search_text message use_html)) as [m |] eqn:S;
        [| discriminate].
      unfold group_1. destruct (has_group p); [| discriminate].
      intros G. injection G as G. now apply (search_group_occurs p _ S G).
    + intros H. apply try_patterns_source in H.
      destruct H as (p & m & _ & S & G & _).
      now apply (search_group_occurs p _ S G).
  - intros all_codes H. unfold extract_all_codes in H.
    eapply collect_all_Forall; [| constructor | exact H].
    intros p m code _ I G. now apply (finditer_group_occurs p _ m I G).
Qed.

(** ** The list of all codes *)

(** The set [seen] and the list [codes] grow together. *)
Lemma collect_same (p : regex) (matches : list match_) :
  forall codes codes' seen',
    collect p matches codes codes = Returned (codes', seen') -> seen' = codes'.
Proof.
  induction matches as [| m matches IH]; intros codes codes' seen'; cbn [collect].
  - intros E. now injection E as <- <-.
  - destruct (group_1 p m) as [[c |] | e]; try discriminate.
    destruct (negb (mem c codes) && _is_valid_code c); apply IH.
Qed.

Lemma collect_NoDup (p : regex) (matches : list match_) :
  forall codes codes' seen',
    NoDup codes ->
    collect p matches codes codes = Returned (codes', seen') -> NoDup codes'.
Proof.
  induction matches as [| m matches IH]; intros codes codes' seen' N; cbn [collect].
  - intros E. now injection E as <- <-.
  - destruct (group_1 p m) as [[c |] | e]; try discriminate.
    destruct (mem c codes) eqn:M; cbn [negb andb]; [now apply IH |].
    destruct (_is_valid_code c); [| now apply IH].
    apply IH. constructor; [| exact N].
    intros I. apply mem_In in I. congruence.
Qed.

Lemma collect_grows (p : regex) (matches : list match_) :
  forall codes seen codes' seen' x,
    collect p matches codes seen = Returned (codes', seen') ->
    In x codes -> In x codes'.
Proof.
  induction matches as [| m matches IH]; intros codes seen codes' seen' x;
    cbn [collect].
  - intros E. now injection E as <- <-.
  - destruct (group_1 p m) as [[c |] | e]; try discriminate.
    destruct (negb (mem c seen) && _is_valid_code c).
    + intros H I. apply (IH _ _ _ _ x H). now right.
    + apply IH.
Qed.

Lemma collect_all_same_NoDup (text : str) (patterns : list regex) :
  forall codes out,
    NoDup codes ->
    collect_all patterns text codes codes = Returned out -> NoDup out.
Proof.
  induction patterns as [| p patterns IH]; intros codes out N; cbn [collect_all].
  - intros E. injection E as <-. now apply NoDup_rev.
  - destruct (collect p (finditer p text) codes codes) as [[codes' seen'] | e] eqn:C;
      [| discriminate].
    pose proof (collect_same _ _ _ C) as ->.
    apply IH. eapply collect_NoDup; eassumption.
Qed.

Lemma collect_all_grows (text : str) (patterns : list regex) :
  forall codes seen out x,
    collect_all patterns text codes seen = Returned out ->
    In x codes -> In x out.
Proof.
  induction patterns as [| p patterns IH]; intros codes seen out x;
    cbn [collect_all].
  - intros E I. injection E as <-. now apply in_rev in I.
  - destruct (collect p (finditer p text) codes seen) as [[codes' seen'] | e] eqn:C;
      [| discriminate].
    intros H I. apply (IH _ _ _ x H). eapply collect_grows; eassumption.
Qed.

(** X2. [extract_all_codes] lists no code twice. *)
Theorem extract_all_codes_distinct (message : EmailMessage) (use_html : bool) :
  returns (fun all_codes => NoDup all_codes) (extract_all_codes message use_html).
Proof.
  destruct (collect_all_returns (search_text message use_html)
              PATTERNS_set_group [] []) as [all_codes E].
  unfold extract_all_codes. rewrite E. cbn [returns].
  eapply collect_all_same_NoDup; [constructor | exact E].
Qed.

(** The valid group of the first match of a pattern is among the codes
    collected for it. *)
Lemma collect_head (p : regex) (text : str) (m : match_) (code : str) :
  search p text = Some m -> group1 m = Some code ->
  _is_valid_code code = true ->
  forall codes codes' seen',
    collect p (finditer p text) codes codes = Returned (codes', seen') ->
    In code codes'.
Proof.
  intros S G V codes codes' seen'.
  destruct (finditer_head p text S) as [later ->]. cbn [collect].
  unfold group_1. destruct (has_group p); [| discriminate]. rewrite G, V.
  destruct (mem code codes) eqn:M; cbn [negb andb]; intros H.
  - apply (collect_grows _ _ _ _ code H). now apply mem_In.
  - apply (collect_grows _ _ _ _ code H). now left.
Qed.

Lemma try_patterns_collected (text code : str) (patterns : list regex) :
  try_patterns patterns text = Returned (Some code) ->
  forall codes out,
    collect_all patterns text codes codes = Returned out -> In code out.
Proof.
  induction patterns as [| p patterns IH]; cbn [try_patterns collect_all];
    [discriminate |].
  intros H codes out.
  destruct (collect p (finditer p text) codes codes) as [[codes' seen'] | e] eqn:C;
    [| discriminate].
  pose proof (collect_same _ _ _ C) as ->.
  destruct (search p text) as [m |] eqn:S; [| now apply IH].
  unfold group_1 in H. destruct (has_group p) eqn:HG; [| discriminate].
  destruct (group1 m) as [c |] eqn:G; [| discriminate].
  destruct (_is_valid_code c) eqn:V; [| now apply IH].
  injection H as <-. intros A.
  apply (collect_all_grows _ _ _ _ c A).
  eapply collect_head; eassumption.
Qed.

(** X3. The code that [extract_code] returns with the default table is one
    of the codes that [extract_all_codes] lists for the same message. *)
Theorem extract_code_among_all_codes (message : EmailMessage) (use_html : bool)
    (code : str) :
  extract_code message None use_html = Returned (Some code) ->
  returns (fun all_codes => In code all_codes) (extract_all_codes message use_html).
Proof.
  intros H.
  destruct (collect_all_returns (search_text message use_html)
              PATTERNS_set_group [] []) as [all_codes E].
  unfold extract_all_codes. rewrite E. cbn [returns].
  eapply try_patterns_collected; [exact H | exact E].
Qed.

End CodeProperties.

Section TableProperties.
Context {U : Unicode} {P : Soup.Parser}.

(** ** The default table *)

Lemma try_patterns_find (text : str) (patterns : list regex) :
  Forall (fun p => has_group p = true /\ sets_group p = true) patterns ->
  try_patterns patterns text
  = Returned match find (fun p => accepted p text) patterns with
             | Some p => candidate p text
             | None => None
             end.
Proof.
  induction patterns as [| p patterns IH]; intros F; cbn [try_patterns find];
    [reflexivity |].
  inversion F as [| ? ? [HG SG] F']; subst. specialize (IH F').
  destruct (search p text) as [m |] eqn:S.
  - assert (exists code, group1 m = Some code) as [code G].
    { destruct (group1 m) as [code |] eqn:G; [eauto |].
      exfalso. unfold search in S. now apply (scan_group p text SG _ _ S). }
    assert (candidate p text = Some code) as C
        by (unfold candidate; now rewrite S).
    unfold accepted at 1. rewrite C. unfold group_1. rewrite HG, G.
    destruct (_is_valid_code code); [now rewrite C | exact IH].
  - assert (candidate p text = None) as C
        by (unfold candidate; now rewrite S).
    unfold accepted at 1. rewrite C. exact IH.
Qed.

(** With the default table [extract_code] returns the group of the
    leftmost match of the first pattern, in table order, whose leftmost match
    is valid, and [None] when no pattern has a valid leftmost match; the
    other matches of a pattern are never looked at. *)
Theorem extract_code_first_accepted_pattern (message : EmailMessage)
    (use_html : bool) :
  extract_code message None use_html
  = Returned
      match find (fun p => accepted p (search_text message use_html)) PATTERNS with
      | Some p => candidate p (search_text message use_html)
      | None => None
      end.
Proof.
  unfold extract_code. apply try_patterns_find. exact PATTERNS_set_group.
Qed.

Lemma long_codes_valid (code : str) :
  5 <= length code <= 8 -> _is_valid_code code = true.
Proof.
  intros L. unfold _is_valid_code.
  destruct (mem code false_positives) eqn:M.
  - apply mem_In in M. exfalso. vm_compute in M.
    repeat (destruct M as [<- | M]; [cbn in L; lia |]). contradiction.
  - destruct (Nat.ltb_spec (length code) 4); [lia |].
    destruct (Nat.ltb_spec 8 (length code)); [lia | reflexivity].
Qed.

Lemma captured_bare (r : regex) (t : str) :
  has_group r = false -> captured (bare r) t -> lang r t.
Proof.
  unfold bare. cbn [seq fold_right captured]. tauto.
Qed.

Lemma has_group_lit_i (s : str) : has_group (lit_i s) = false.
Proof.
  unfold lit_i, seq. induction s as [| c s IH]; [reflexivity |].
  cbn [map fold_right has_group]. exact IH.
Qed.

Lemma captured_labelled (label : regex) (t : str) :
  has_group label = false ->
  captured (labelled label) t -> lang (Rep alnum 4 (Some 8)) t.
Proof.
  intros HG. unfold labelled. cbn [seq fold_right captured].
  pose proof (captured_needs_group label t HG).
  pose proof (captured_needs_group (star separator) t eq_refl). tauto.
Qed.

Lemma captured_url_parameter (name : string) (t : str) :
  captured (url_parameter name) t -> lang (plus alnum) t.
Proof.
  unfold url_parameter. cbn [seq fold_right captured].
  pose proof (captured_needs_group (lit_i (lit name)) t (has_group_lit_i _)).
  pose proof (captured_needs_group query_mark t eq_refl). tauto.
Qed.

Lemma digit_code_char (c : char) : is_decimal c = true -> code_char c = true.
Proof. unfold code_char. intros ->. reflexivity. Qed.

Lemma alnum_code_char (c : char) :
  existsb (fun p => icase p c) (range 65 90 ++ range 48 57) = true ->
  code_char c = true.
Proof. unfold code_char. intros ->. apply orb_true_r. Qed.

(** The groups of the default patterns hold digits and letters only. *)
Lemma PATTERNS_capture_code_chars (p : regex) (t : str) :
  In p PATTERNS -> captured p t -> Forall (fun c => code_char c = true) t.
Proof.
  assert (forall lo hi, lang (Rep digit lo hi) t ->
                        Forall (fun c => code_char c = true) t) as D.
  { intros lo hi L. apply lang_rep_chr in L. destruct L as (F & _).
    eapply Forall_impl; [| exact F]. apply digit_code_char. }
  assert (forall lo hi, lang (Rep alnum lo hi) t ->
                        Forall (fun c => code_char c = true) t) as A.
  { intros lo hi L. apply lang_rep_chr in L. destruct L as (F & _).
    eapply Forall_impl; [| exact F]. apply alnum_code_char. }
  unfold PATTERNS. cbn [In].
  intros [<- | [<- | [<- | [<- | [<- | [<- | [<- | [<- | []]]]]]]]] C.
  - apply captured_bare in C; [| reflexivity]. now apply (D 6 (Some 6)).
  - apply captured_bare in C; [| reflexivity]. now apply (D 4 (Some 4)).
  - apply captured_bare in C; [| reflexivity]. now apply (D 8 (Some 8)).
  - apply captured_bare in C; [| reflexivity]. now apply (A 6 (Some 8)).
  - apply captured_labelled in C; [| reflexivity]. now apply (A 4 (Some 8)).
  - apply captured_labelled in C; [| reflexivity]. now apply (A 4 (Some 8)).
  - apply captured_url_parameter in C. now apply (A 1 None).
  - apply captured_url_parameter in C. now apply (A 1 None).
Qed.

(** X4. With the default table every character of a code returned by
    [extract_code] or listed by [extract_all_codes] satisfies [code_char]: it
    is a decimal digit in the sense of [\d], or a character that [[A-Z0-9]]
    matches when case is ignored. *)
Theorem default_codes_are_alphanumeric (message : EmailMessage) (use_html : bool) :
  (forall code,
      extract_code message None use_html = Returned (Some code) ->
      Forall (fun c => code_char c = true) code)
  /\ (forall all_codes,
      extract_all_codes message use_html = Returned all_codes ->
      Forall (Forall (fun c => code_char c = true)) all_codes).
Proof.
  split.
  - intros code H. apply try_patterns_source in H.
    destruct H as (p & m & I & S & G & _).
    destruct (search_group_occurs p _ S G) as [C _].
    eapply PATTERNS_capture_code_chars; eassumption.
  - intros all_codes H. unfold extract_all_codes in H.
    eapply collect_all_Forall; [| constructor | exact H].
    intros p m code I Im G.
    destruct (finditer_group_occurs p _ m Im G) as [C _].
    eapply PATTERNS_capture_code_chars; eassumption.
Qed.

(** X5. A bare number of six digits wins: when the six-digit pattern matches
    the text searched, [extract_code] returns the group of its leftmost
    match, six decimal digits, whatever the other patterns would find. *)
Theorem extract_code_six_digits_first (message : EmailMessage) (use_html : bool)
    (m : match_) :
  search (bare (times 6 digit)) (search_text message use_html) = Some m ->
  exists code,
    group1 m = Some code
    /\ length code = 6
    /\ Forall (fun c => is_decimal c = true) code
    /\ extract_code message None use_html = Returned (Some code).
Proof.
  intros S.
  destruct (group1 m) as [code |] eqn:G.
  - destruct (search_group_occurs _ _ S G) as [C _].
    apply captured_bare in C; [| reflexivity].
    apply lang_rep_chr in C. destruct C as (F & Lo & Hi).
    specialize (Hi 6 eq_refl).
    exists code. split; [reflexivity |]. split; [lia |]. split; [exact F |].
    unfold extract_code, PATTERNS. cbn [try_patterns]. rewrite S.
    unfold group_1. change (has_group (bare (times 6 digit))) with true.
    rewrite G. rewrite long_codes_valid by lia. reflexivity.
  - exfalso. unfold search in S.
    now apply (scan_group (bare (times 6 digit)) _ eq_refl _ _ S).
Qed.

End TableProperties.

Section LinkExtras.
Context {U : Unicode} {P : Soup.Parser}.

(** ** Links *)

Lemma lang_exactly (s c : str) : lang (exactly s) c -> c = s.
Proof.
  unfold exactly, seq. revert c.
  induction s as [| p s IH]; intros c; cbn [map fold_right lang]; [auto |].
  intros (c1 & c2 & -> & (ch & -> & E) & L). apply N.eqb_eq in E. subst ch.
  cbn [app]. f_equal. now apply IH.
Qed.

(** What the URL pattern consumes starts with [http://], [https://] or
    [www.]. *)
Lemma lang_url_pattern (u : str) :
  lang url_pattern u ->
  is_http u = true \/ startswith (lit "www.") u = true.
Proof.
  unfold url_pattern. cbn [lang seq fold_right].
  intros [(c1 & r1 & -> & L1 & c2 & r2 & -> & L2 & c3 & r3 & -> & L3 & _)
         | (c1 & r1 & -> & L1 & _)].
  - apply lang_exactly in L1, L3. subst c1 c3.
    destruct L2 as (parts & -> & F & _ & Hi). specialize (Hi 1 eq_refl).
    left. destruct parts as [| part [| ? ?]]; [reflexivity | | cbn in Hi; lia].
    inversion F as [| ? ? Lp _]; subst. apply lang_exactly in Lp. subst part.
    reflexivity.
  - apply lang_exactly in L1. subst c1. right. reflexivity.
Qed.

Lemma findall_url_scheme (text u : str) :
  In u (findall url_pattern text) ->
  is_http u = true \/ startswith (lit "www.") u = true.
Proof.
  unfold findall. intros I. apply in_map_iff in I. destruct I as (m & <- & I).
  pose proof (finditer_sound url_pattern text) as F.
  rewrite Forall_forall in F. destruct (F m I) as [L _].
  now apply lang_url_pattern.
Qed.

Lemma first_url_In (keyword : option str) (urls : list str) (u : str) :
  first_url keyword urls = Some u ->
  In u urls
  /\ (forall kw, keyword = Some kw -> contains (lower kw) (lower u) = true).
Proof.
  induction urls as [| url urls IH]; cbn [first_url]; [discriminate |].
  destruct keyword as [kw |].
  - destruct (contains (lower kw) (lower url)) eqn:C.
    + intros H. injection H as <-. split; [now left |].
      intros ? E. now injection E as <-.
    + intros H. destruct (IH H) as [I K]. split; [now right | exact K].
  - intros H. injection H as <-. split; [now left | discriminate].
Qed.

Lemma first_link_plain (links : list Soup.node) (u : str) :
  first_link None links = Some u -> is_http u = true.
Proof.
  induction links as [| link links IH]; cbn [first_link]; [discriminate |].
  destruct (is_http (Soup.item (lit "href") link)) eqn:E; [| exact IH].
  intros H. now injection H as <-.
Qed.

Lemma given_falsy (keyword : option str) :
  truthy_opt keyword = false -> given keyword = None.
Proof. now destruct keyword as [[| c kw] |]. Qed.

(** X6. Without a keyword, and whenever the message has no HTML body,
    [extract_link] returns only links that start with [http://], [https://]
    or [www.]. *)
Theorem extract_link_scheme (message : EmailMessage) (keyword : option str)
    (u : str) :
  truthy_opt keyword = false \/ truthy_opt (body_html message) = false ->
  extract_link message keyword = Some u ->
  is_http u = true \/ startswith (lit "www.") u = true.
Proof.
  intros Side. unfold extract_link.
  destruct (if truthy_opt (body_html message) then _ else None)
    as [href |] eqn:Html.
  - intros H. injection H as <-.
    destruct Side as [K | B]; [| rewrite B in Html; discriminate].
    rewrite (given_falsy _ K) in Html.
    destruct (truthy_opt (body_html message)); [| discriminate].
    left. eapply first_link_plain. exact Html.
  - intros H. apply first_url_In in H. destruct H as [I _].
    eapply findall_url_scheme. exact I.
Qed.

(** X7. A link returned for a keyword mentions it, whatever the case of the
    letters: the keyword occurs in the link itself or, for an anchor of the
    HTML body, in the text of that anchor. *)
Theorem extract_link_mentions_keyword (message : EmailMessage)
    (keyword u : str) :
  truthy keyword = true ->
  extract_link message (Some keyword) = Some u ->
  contains (lower keyword) (lower u) = true
  \/ exists html link,
       body_html message = Some html
       /\ In link (anchors (Soup.BeautifulSoup html))
       /\ u = Soup.item (lit "href") link
       /\ contains (lower keyword) (lower (Soup.get_text_strip [] [link])) = true.
Proof.
  intros T. unfold extract_link.
  assert (given (Some keyword) = Some keyword) as ->
      by (destruct keyword; [discriminate | reflexivity]).
  destruct (if truthy_opt (body_html message) then _ else None)
    as [href |] eqn:Html.
  - intros H. injection H as <-.
    destruct (body_html message) as [html |] eqn:B; [| discriminate].
    cbn [truthy_opt or_empty] in Html.
    destruct (truthy html); [| discriminate].
    rewrite first_link_keyword in Html.
    fold (anchors (Soup.BeautifulSoup html)) in Html.
    destruct (find (mentions keyword) (anchors (Soup.BeautifulSoup html)))
      as [link |] eqn:F; [| discriminate].
    injection Html as <-. apply find_some in F. destruct F as [I M].
    unfold mentions in M. apply orb_true_iff in M as [M | M]; [now left |].
    right. exists html, link. auto.
  - intros H. apply first_url_In in H. destruct H as [_ K]. left. now apply K.
Qed.

End LinkExtras.

Section InfoProperties.
Context {U : Unicode} {P : Soup.Parser}.

(** ** The summary *)

Lemma first_keyword_link_source (message : EmailMessage) (keywords : list str)
    (u : str) :
  first_keyword_link message keywords = Some u ->
  u <> []
  /\ exists keyword,
       In keyword keywords /\ extract_link message (Some keyword) = Some u.
Proof.
  induction keywords as [| keyword keywords IH]; cbn [first_keyword_link];
    [discriminate |].
  assert (first_keyword_link message keywords = Some u ->
          u <> []
          /\ exists kw,
               In kw (keyword :: keywords)
               /\ extract_link message (Some kw) = Some u) as Next.
  { intros H. destruct (IH H) as (N & kw & I & E).
    split; [exact N |]. exists kw. split; [now right | exact E]. }
  destruct (extract_link message (Some keyword)) as [[| c link] |] eqn:E;
    try exact Next.
  intros H. injection H as <-. split; [discriminate |].
  exists keyword. split; [now left | exact E].
Qed.

(** X8. [extract_info] returns without raising, and its summary is
    consistent: the codes are distinct and validated, the primary code is
    one of them, every link starts with [http://] or [https://], and the
    verification link is a non-empty result of [extract_link] for one of the
    keywords.  The subject and the sender are those of the message. *)
Theorem extract_info_consistent (message : EmailMessage) :
  returns
    (fun info =>
       NoDup (Info.codes info)
       /\ Forall acceptable (Info.codes info)
       /\ (forall code, Info.primary_code info = Some code ->
             In code (Info.codes info))
       /\ Forall (fun link => is_http link = true) (Info.links info)
       /\ (forall u, Info.verification_link info = Some u ->
             u <> []
             /\ exists keyword,
                  In keyword KEYWORDS
                  /\ extract_link message (Some keyword) = Some u)
       /\ Info.subject info = subject message
       /\ Info.sender info = sender message)
    (extract_info message).
Proof.
  unfold extract_info, extract_all_codes, extract_code.
  destruct (collect_all_returns (search_text message true)
              PATTERNS_set_group [] []) as [all_codes A].
  destruct (try_patterns_returns (search_text message true)
              PATTERNS_set_group) as [primary T].
  rewrite A, T. cbn [returns Info.codes Info.primary_code Info.links
                     Info.verification_link Info.subject Info.sender].
  split; [eapply collect_all_same_NoDup; [constructor | exact A] |].
  split.
  { pose proof A as V. apply collect_all_valid in V; [| constructor].
    eapply Forall_impl; [| exact V]. intros c. apply is_valid_code_acceptable. }
  split; [intros code ->; eapply try_patterns_collected; eassumption |].
  split.
  { unfold http_links. destruct (truthy_opt (body_html message));
      [| constructor].
    apply Forall_forall. intros link I. apply filter_In in I. tauto. }
  split; [intros u; apply first_keyword_link_source | auto].
Qed.

End InfoProperties.

(* ===================================================================== *)
(** * Further properties of the mailbox provider *)
(* ===================================================================== *)

Lemma generate_random_email_truthy (w : World) :
  truthy (fst (generate_random_email w)) = true.
Proof.
  unfold generate_random_email. rewrite !run_bind. unfold ret at 1. cbn [fst].
  destruct (fst (choices _ _ _ _)); reflexivity.
Qed.

Lemma create_email_address {PF : Platform} (self : MailCxProvider) (w : World) :
  email (snd (fst (create_email self w))) = fst (generate_random_email w)
  /\ registration_time (snd (fst (create_email self w)))
     = Some (int_of (float_mul (clock w 0) 1000))
  /\ auth_token (snd (fst (create_email self w))) = auth_token self.
Proof.
  unfold create_email. rewrite !run_bind. unfold ret, time_time. cbn [fst snd].
  cbn [registration_time email auth_token clock].
  now rewrite generate_random_email_clock.
Qed.

Section ConnectExtras.
Context {U : Unicode} {PF : Platform}.

(** [get_auth_token] leaves the clock and the random generator alone. *)
Lemma get_auth_token_world (self : MailCxProvider) (w : World) :
  clock (snd (get_auth_token self w)) = clock w
  /\ draws (snd (get_auth_token self w)) = draws w
  /\ fetches (snd (get_auth_token self w)) = fetches w.
Proof.
  unfold get_auth_token. rewrite run_bind.
  destruct (fst (session_get_home w)) as [| cookies]; [now cbn |].
  destruct (cookie (lit "auth_token") cookies); now cbn.
Qed.

(** X9. [connect] returns [True] exactly when the handshake gave a
    non-empty token, and then the provider holds that token and a non-empty
    address: the next [get_messages] goes to the service. *)
Theorem connect_true_iff_token (self : MailCxProvider) (w : World) :
  fst (fst (connect self w)) = truthy_opt (fst (get_auth_token self w))
  /\ (fst (fst (connect self w)) = true ->
      auth_token (snd (fst (connect self w))) = fst (get_auth_token self w)
      /\ truthy (email (snd (fst (connect self w)))) = true).
Proof.
  unfold connect. rewrite run_bind. cbn [auth_token email auto_create].
  destruct (truthy_opt (fst (get_auth_token self w))) eqn:T; cbn [negb].
  - destruct (negb (truthy (email self)) || get (auto_create self) true) eqn:New.
    + rewrite run_bind. unfold ret. cbn [fst snd].
      split; [reflexivity |]. intros _.
      match goal with
      | |- context [create_email ?s ?w1] =>
          destruct (create_email_address s w1) as (E & _ & A)
      end.
      rewrite E, A. cbn [auth_token].
      split; [reflexivity | apply generate_random_email_truthy].
    + unfold ret. cbn [fst snd auth_token email].
      split; [reflexivity |]. intros _. split; [reflexivity |].
      apply orb_false_iff in New as [New _]. now apply negb_false_iff in New.
  - unfold ret. cbn [fst]. split; [reflexivity | discriminate].
Qed.

(** X10. An address given to the provider survives a successful [connect]
    only when [auto_create] was switched off: then the address and the
    registration time stay as they were, and neither the clock nor the
    random generator is touched. *)
Theorem connect_keeps_preset_address (self : MailCxProvider) (w : World) :
  truthy_opt (fst (get_auth_token self w)) = true ->
  truthy (email self) = true ->
  auto_create self = Some false ->
  fst (fst (connect self w)) = true
  /\ email (snd (fst (connect self w))) = email self
  /\ registration_time (snd (fst (connect self w))) = registration_time self
  /\ clock (snd (connect self w)) = clock w
  /\ draws (snd (connect self w)) = draws w.
Proof.
  intros T E A. unfold connect. rewrite run_bind.
  cbn [auth_token email auto_create]. rewrite T, E, A.
  cbn [negb orb get]. unfold ret. cbn [fst snd email registration_time].
  destruct (get_auth_token_world self w) as (C & D & _). auto.
Qed.

(** X11. With [auto_create] left at its default, or switched on, a
    successful [connect] replaces whatever address the provider had by a
    freshly generated one, and records [int(time.time() * 1000)] of the
    clock's reading, the product rounded as the machine does, as its
    registration time. *)
Theorem connect_replaces_address (self : MailCxProvider) (w : World) :
  truthy_opt (fst (get_auth_token self w)) = true ->
  get (auto_create self) true = true ->
  fst (fst (connect self w)) = true
  /\ email (snd (fst (connect self w)))
     = fst (generate_random_email (snd (get_auth_token self w)))
  /\ registration_time (snd (fst (connect self w)))
     = Some (int_of (float_mul (clock w 0) 1000)).
Proof.
  intros T A. unfold connect. rewrite run_bind.
  cbn [auth_token email auto_create]. rewrite T, A.
  rewrite orb_true_r. cbn [negb]. rewrite run_bind. unfold ret. cbn [fst snd].
  match goal with
  | |- context [create_email ?s ?w1] =>
      destruct (create_email_address s w1) as (E & R & _)
  end.
  rewrite E, R. destruct (get_auth_token_world self w) as (-> & _).
  auto.
Qed.

(** X12. Without a token nothing is fetched: a provider just built, and a
    provider whose [connect] has failed, get the empty list from
    [get_messages], and no request is sent. *)
Theorem get_messages_needs_token (address : option str)
    (switch : option bool) (self : MailCxProvider) (limit : Z)
    (since : option datetime) (w w' : World) :
  get_messages (__init__ address switch) limit since w' = ([], w')
  /\ (truthy_opt (fst (get_auth_token self w)) = false ->
      get_messages (snd (fst (connect self w))) limit since w' = ([], w')).
Proof.
  split; [reflexivity |].
  intros T. apply get_messages_unconnected.
  unfold connect. rewrite run_bind. cbn [auth_token]. rewrite T.
  cbn [negb]. unfold ret. cbn [fst snd auth_token]. now rewrite T.
Qed.

End ConnectExtras.

Section FetchExtras.
Context {PF : Platform}.

Lemma slice_to_length (A : Type) (limit : Z) (data : list A) :
  (0 <= limit)%Z -> length (slice_to limit data) <= Z.to_nat limit.
Proof.
  intros L. unfold slice_to.
  destruct (Z.leb_spec 0 limit); [| lia].
  rewrite length_firstn. lia.
Qed.

Lemma convert_bounded (self : MailCxProvider) (since_millis : option Z)
    (data : list record) :
  forall messages,
    convert self since_millis data = Some messages ->
    length messages <= length data
    /\ Forall (fun m => recipient m = email self) messages.
Proof.
  induction data as [| r data IH]; intros messages; cbn [convert].
  - intros E. injection E as <-. split; [reflexivity | constructor].
  - destruct (too_old since_millis _) as [[|] |]; [| | discriminate].
    + intros H. destruct (IH _ H). cbn [length]. split; [lia | assumption].
    + destruct (convert self since_millis data) as [rest |]; [| discriminate].
      cbn [option_map]. intros E. injection E as <-.
      destruct (IH _ eq_refl). cbn [length].
      split; [lia | constructor; [reflexivity | assumption]].
Qed.

(** X13. [get_messages] returns at most [limit] messages, for a [limit]
    that is not negative, and each of them is addressed to the provider's
    own address. *)
Theorem get_messages_bounded (self : MailCxProvider) (limit : Z)
    (since : option datetime) (w : World) :
  (0 <= limit)%Z ->
  length (fst (get_messages self limit since w)) <= Z.to_nat limit
  /\ Forall (fun m => recipient m = email self)
       (fst (get_messages self limit since w)).
Proof.
  intros L.
  assert (forall response,
             length (fetch_result self limit since response) <= Z.to_nat limit
             /\ Forall (fun m => recipient m = email self)
                  (fetch_result self limit since response)) as R.
  { intros response. unfold fetch_result.
    destruct response as [| status_code body];
      [cbn [length]; split; [lia | constructor] |].
    destruct (negb (Z.eqb status_code 200));
      [cbn [length]; split; [lia | constructor] |].
    destruct body as [data |]; [| cbn [length]; split; [lia | constructor]].
    destruct (convert self (since_millis_of self since) (slice_to limit data))
      as [messages |] eqn:C; cbn [get];
      [| cbn [length]; split; [lia | constructor]].
    apply convert_bounded in C. destruct C as [Len F].
    pose proof (slice_to_length data L). split; [lia | exact F]. }
  unfold get_messages.
  destruct (negb (truthy_opt (auth_token self)));
    [cbn [ret fst length]; split; [lia | constructor] |].
  destruct (negb (truthy (email self)));
    [cbn [ret fst length]; split; [lia | constructor] |].
  rewrite run_bind. cbn [ret fst]. apply R.
Qed.

Lemma convert_unbounded (self : MailCxProvider) (since_millis : option Z)
    (data : list record) :
  since_millis = None \/ since_millis = Some 0%Z ->
  convert self since_millis data
  = Some (map (fun r => to_message self r (parse_time (msg_time r))) data).
Proof.
  intros B. induction data as [| r data IH]; [reflexivity |].
  cbn [convert map]. fold (msg_time r).
  assert (too_old since_millis (msg_time r) = Some false) as ->
      by (destruct B as [-> | ->]; reflexivity).
  now rewrite IH.
Qed.

(** X14. When no bound is in force (no [since], and no registration time or
    a registration time of 0), every record of [data[:limit]] is returned, in
    order, whatever its time stamp is; a time stamp that is missing, zero, or
    not a finite number ([null], a string, a list, an object, [NaN] or an
    infinity) leaves [received_at] at [None]. *)
Theorem get_messages_without_bound (self : MailCxProvider) (limit : Z)
    (w : World) (data : list record) :
  truthy_opt (auth_token self) = true ->
  truthy (email self) = true ->
  fetches w 0 = Response 200 (Some data) ->
  registration_time self = None \/ registration_time self = Some 0%Z ->
  fst (get_messages self limit None w)
  = map (fun r => to_message self r (parse_time (msg_time r)))
      (slice_to limit data)
  /\ (forall r, timeless (msg_time r) = true ->
        received_at (to_message self r (parse_time (msg_time r))) = None).
Proof.
  intros T E F B. split.
  - destruct (get_messages_connected self limit None w T E) as (-> & _).
    rewrite F. unfold fetch_result. cbn [Z.eqb negb].
    rewrite convert_unbounded; [reflexivity |].
    unfold since_millis_of. destruct B as [-> | ->]; auto.
  - intros r S. cbn [to_message received_at]. unfold parse_time.
    destruct (msg_time r) as [| b | z | x | | negative | s | items | fields];
      cbn [timeless] in S; cbn [json_truthy as_number as_int option_map];
      try (rewrite S; reflexivity);
      try (now destruct (truthy s));
      try (now destruct items); try (now destruct fields);
      try reflexivity.
    destruct b; [discriminate | reflexivity].
Qed.

End FetchExtras.

(** ** The token *)

Lemma lstrip_by_head (drop : char -> bool) (s : str) (c : char) (t : str) :
  lstrip_by drop s = c :: t -> drop c = false.
Proof.
  induction s as [| a s IH]; cbn [lstrip_by]; [discriminate |].
  destruct (drop a) eqn:D; [exact IH |].
  intros E. injection E as <- _. exact D.
Qed.

Lemma lstrip_by_suffix (drop : char -> bool) (s : str) :
  exists dropped, s = dropped ++ lstrip_by drop s.
Proof.
  induction s as [| a s (dropped & IH)]; cbn [lstrip_by]; [now exists [] |].
  destruct (drop a); [| now exists []].
  exists (a :: dropped). cbn [app]. now f_equal.
Qed.

(** What [strip] returns neither begins nor ends with a dropped character. *)
Lemma strip_by_ends (drop : char -> bool) (s : str) :
  (forall c t, strip_by drop s = c :: t -> drop c = false)
  /\ (forall c t, strip_by drop s = t ++ [c] -> drop c = false).
Proof.
  unfold strip_by.
  set (x := lstrip_by drop s). set (y := lstrip_by drop (rev x)).
  split; intros c t E.
  - destruct (lstrip_by_suffix drop (rev x)) as (dropped & Sx). fold y in Sx.
    apply (f_equal (@rev char)) in Sx.
    rewrite rev_involutive, rev_app_distr, E in Sx.
    apply (lstrip_by_head drop s (t := t ++ rev dropped)). exact Sx.
  - apply (f_equal (@rev char)) in E.
    rewrite rev_involutive, rev_app_distr in E. cbn [rev app] in E.
    eapply lstrip_by_head. exact E.
Qed.

Section TokenExtras.
Context {U : Unicode} {PF : Platform}.

(** X15. The token that [get_auth_token] returns is trimmed: it neither
    begins nor ends with white space. *)
Theorem get_auth_token_trimmed (self : MailCxProvider) (w : World) (token : str) :
  fst (get_auth_token self w) = Some token ->
  (forall c t, token = c :: t -> is_space c = false)
  /\ (forall c t, token = t ++ [c] -> is_space c = false).
Proof.
  unfold get_auth_token. rewrite run_bind.
  destruct (fst (session_get_home w)) as [| cookies]; [discriminate |].
  destruct (cookie (lit "auth_token") cookies) as [raw_token |];
    [| discriminate].
  cbn [ret fst]. intros E. injection E as <-. unfold strip at 1.
  apply strip_by_ends.
Qed.

End TokenExtras.

(** ** Waiting, further *)

Section WaitExtras.
Context {U : Unicode} {PF : Platform}.

Variables (wait_start_millis : Z) (filter_subject filter_sender : option str).

Lemma check_messages_filters (messages : list EmailMessage) :
  forall seen_ids msg seen_ids',
    check_messages wait_start_millis filter_subject filter_sender
      messages seen_ids = (Some msg, seen_ids') ->
    filtered_out filter_subject (subject msg) = false
    /\ filtered_out filter_sender (sender msg) = false.
Proof.
  induction messages as [| m messages IH]; intros seen_ids msg seen_ids';
    cbn [check_messages]; [discriminate |].
  destruct (mem (id m) seen_ids); [apply IH |].
  destruct (match received_at m with
            | Some dt => Z.ltb (timestamp_millis dt) wait_start_millis
            | None => false
            end); [apply IH |].
  destruct (filtered_out filter_subject (subject m)) eqn:Fs; [apply IH |].
  destruct (filtered_out filter_sender (sender m)) eqn:Fd; [apply IH |].
  intros H. injection H as <- _. auto.
Qed.

Variables (self : MailCxProvider) (start_time : Q) (timeout interval : Z).

Let loop (fuel : nat) :=
  wait_loop fuel self start_time wait_start_millis timeout interval
    filter_subject filter_sender.

Lemma wait_loop_filters (fuel : nat) :
  forall seen_ids w msg,
    fst (loop fuel seen_ids w) = Some (Returned (Some msg)) ->
    filtered_out filter_subject (subject msg) = false
    /\ filtered_out filter_sender (sender msg) = false.
Proof.
  induction fuel as [| fuel IH]; intros seen_ids w msg;
    unfold loop in *; cbn [wait_loop]; [discriminate |].
  rewrite run_bind.
  destruct (Qltb _ _); [| discriminate].
  destruct (Z.ltb interval 0); [discriminate |].
  rewrite run_bind.
  destruct (check_messages _ _ _ _ _) as [[found |] seen_ids'] eqn:C.
  - cbn [ret fst]. intros H. injection H as <-.
    eapply check_messages_filters. exact C.
  - rewrite run_bind. apply IH.
Qed.


(** Without token or address the loop sends no request. *)
Lemma wait_loop_unconnected_fetches (fuel : nat) :
  truthy_opt (auth_token self) && truthy (email self) = false ->
  forall seen_ids w, fetches (snd (loop fuel seen_ids w)) = fetches w.
Proof.
  intros Off. induction fuel as [| fuel IH]; intros seen_ids w;
    unfold loop in *; cbn [wait_loop]; [reflexivity |].
  rewrite run_bind.
  destruct (Qltb _ _); [| reflexivity].
  destruct (Z.ltb interval 0); [reflexivity |].
  rewrite run_bind, (get_messages_unconnected self 20 None _ Off).
  cbn [fst snd check_messages]. rewrite run_bind. now rewrite IH.
Qed.

End WaitExtras.

(** X16. The message that [wait_for_message] returns passes both filters: a
    filter that is given and not empty occurs, whatever the case of the
    letters, in the subject, respectively in the sender, of the message. *)
Theorem wait_for_message_respects_filters {U : Unicode} {PF : Platform}
    (fuel : nat) (self : MailCxProvider) (timeout interval : Z)
    (filter_subject filter_sender : option str) (w : World) (msg : EmailMessage) :
  fst (wait_for_message fuel self timeout interval filter_subject filter_sender w)
  = Some (Returned (Some msg)) ->
  (forall f, filter_subject = Some f -> truthy f = true ->
     contains (lower f) (lower (subject msg)) = true)
  /\ (forall f, filter_sender = Some f -> truthy f = true ->
        contains (lower f) (lower (sender msg)) = true).
Proof.
  unfold wait_for_message. rewrite !run_bind. intros H.
  apply wait_loop_filters in H. destruct H as [Fs Fd].
  unfold filtered_out in Fs, Fd.
  split; intros f -> T; cbn [truthy_opt or_empty] in *.
  - rewrite T in Fs. cbn [andb] in Fs. now apply negb_false_iff in Fs.
  - rewrite T in Fd. cbn [andb] in Fd. now apply negb_false_iff in Fd.
Qed.


(** X18. A provider without token or without address waits in vain:
    [wait_for_message] never returns a message, and sends no request. *)
Theorem wait_for_message_unconnected {U : Unicode} {PF : Platform}
    (fuel : nat) (self : MailCxProvider) (timeout interval : Z)
    (filter_subject filter_sender : option str) (w : World) :
  truthy_opt (auth_token self) && truthy (email self) = false ->
  (forall msg,
      fst (wait_for_message fuel self timeout interval filter_subject
             filter_sender w)
      <> Some (Returned (Some msg)))
  /\ fetches (snd (wait_for_message fuel self timeout interval filter_subject
                     filter_sender w))
     = fetches w.
Proof.
  intros Off. unfold wait_for_message. rewrite !run_bind. split.
  - intros msg H.
    match type of H with
    | fst ?run = _ => destruct run as [out w'] eqn:L
    end.
    cbn [fst] in H. subst out.
    eapply wait_loop_unconnected; [exact Off | exact L].
  - now rewrite wait_loop_unconnected_fetches.
Qed.

(** ** The polling harness *)

Section HarnessProperties.
Context {U : Unicode} {P : Soup.Parser} {PF : Platform}.







End HarnessProperties.

(* ===================================================================== *)
(** * Sample runs of the further properties *)
(* ===================================================================== *)

(** The code of the sample message stands in its body. *)
Lemma extracted_codes_occur_in_text_witness :
  occurs_in (lit "482913") (lit "Your code: 482913")
  /\ Forall (fun code => occurs_in code (lit "2024 5678")) [lit "5678"].
Proof.
  split.
  - apply (proj1 (extracted_codes_occur_in_text (U := Py.Ascii7.tables)
                    (P := Samples.no_markup) Samples.first_copy None true)).
    vm_compute. reflexivity.
  - apply (proj2 (extracted_codes_occur_in_text (U := Py.Ascii7.tables)
                    (P := Samples.no_markup) Samples.year_then_code None true)).
    vm_compute. reflexivity.
Defined.

(** The primary code of the sample message is among all its codes. *)
Lemma extract_code_among_all_codes_witness :
  returns (fun all_codes => In (lit "482913") all_codes)
    (extract_all_codes (U := Py.Ascii7.tables) (P := Samples.no_markup)
       Samples.first_copy true).
Proof.
  apply extract_code_among_all_codes. vm_compute. reflexivity.
Defined.

(** The codes of the sample messages are made of digits. *)
Lemma default_codes_are_alphanumeric_witness :
  Forall (fun c => code_char (U := Py.Ascii7.tables) c = true) (lit "482913")
  /\ Forall (Forall (fun c => code_char (U := Py.Ascii7.tables) c = true))
       [lit "5678"].
Proof.
  split.
  - apply (proj1 (default_codes_are_alphanumeric (U := Py.Ascii7.tables)
                    (P := Samples.no_markup) Samples.first_copy true)).
    vm_compute. reflexivity.
  - apply (proj2 (default_codes_are_alphanumeric (U := Py.Ascii7.tables)
                    (P := Samples.no_markup) Samples.year_then_code true)).
    vm_compute. reflexivity.
Defined.

(** The six digits of the sample message are its code. *)
Lemma extract_code_six_digits_first_witness :
  exists code,
    length code = 6
    /\ extract_code (U := Py.Ascii7.tables) (P := Samples.no_markup)
         Samples.first_copy None true
       = Returned (Some code).
Proof.
  destruct (search (U := Py.Ascii7.tables)
              (bare (times 6 (digit (U := Py.Ascii7.tables))))
              (search_text (U := Py.Ascii7.tables) (P := Samples.no_markup)
                 Samples.first_copy true)) as [m |] eqn:S.
  - destruct (extract_code_six_digits_first (U := Py.Ascii7.tables)
                (P := Samples.no_markup) Samples.first_copy true S)
      as (code & _ & L & _ & E).
    exists code. split; assumption.
  - vm_compute in S. discriminate.
Defined.

(** A site named in the plain text is returned with its [www.] prefix. *)
Lemma extract_link_scheme_witness :
  is_http (lit "www.example.com/confirm") = true
  \/ startswith (lit "www.") (lit "www.example.com/confirm") = true.
Proof.
  apply (extract_link_scheme (U := Py.Ascii7.tables) (P := Samples.no_markup)
           MoreSamples.invitation None).
  - now left.
  - vm_compute. reflexivity.
Defined.

(** The link found for the keyword [confirm] holds the keyword. *)
Lemma extract_link_mentions_keyword_witness :
  contains (lower (Unicode := Py.Ascii7.tables) (lit "Confirm"))
    (lower (Unicode := Py.Ascii7.tables) (lit "www.example.com/confirm"))
  = true
  \/ exists html link,
       body_html MoreSamples.invitation = Some html
       /\ In link (anchors (Soup.BeautifulSoup (Parser := Samples.no_markup) html))
       /\ lit "www.example.com/confirm" = Soup.item (lit "href") link
       /\ contains (lower (Unicode := Py.Ascii7.tables) (lit "Confirm"))
            (lower (Unicode := Py.Ascii7.tables)
               (Soup.get_text_strip (U := Py.Ascii7.tables) [] [link]))
          = true.
Proof.
  apply (extract_link_mentions_keyword (U := Py.Ascii7.tables)
           (P := Samples.no_markup) MoreSamples.invitation).
  - reflexivity.
  - vm_compute. reflexivity.
Defined.

(** A handshake that brings a token: the provider holds it, trimmed, and has
    an address. *)
Lemma connect_true_iff_token_witness :
  fst (fst (connect (U := Py.Ascii7.tables) (PF := Exact.platform)
              Worlds.fresh (MoreSamples.welcoming 1700000000)))
  = true
  /\ auth_token
       (snd (fst (connect (U := Py.Ascii7.tables) (PF := Exact.platform)
                    Worlds.fresh (MoreSamples.welcoming 1700000000))))
     = Some (lit "abc123")
  /\ truthy
       (email
          (snd (fst (connect (U := Py.Ascii7.tables) (PF := Exact.platform)
                       Worlds.fresh (MoreSamples.welcoming 1700000000)))))
     = true.
Proof.
  destruct (connect_true_iff_token (U := Py.Ascii7.tables) (PF := Exact.platform)
              Worlds.fresh (MoreSamples.welcoming 1700000000)) as [R Post].
  assert (fst (fst (connect (U := Py.Ascii7.tables) (PF := Exact.platform)
                      Worlds.fresh (MoreSamples.welcoming 1700000000)))
          = true) as Ok by (rewrite R; vm_compute; reflexivity).
  destruct (Post Ok) as [A E].
  split; [exact Ok |]. split; [| exact E].
  rewrite A. vm_compute. reflexivity.
Defined.

(** The address given with [auto_create=False] is still there. *)
Lemma connect_keeps_preset_address_witness :
  email
    (snd (fst (connect (U := Py.Ascii7.tables) (PF := Exact.platform)
                 MoreSamples.preset_kept (MoreSamples.welcoming 1700000000))))
  = lit "me@qabq.com"
  /\ registration_time
       (snd (fst (connect (U := Py.Ascii7.tables) (PF := Exact.platform)
                    MoreSamples.preset_kept (MoreSamples.welcoming 1700000000))))
     = None.
Proof.
  destruct (connect_keeps_preset_address (U := Py.Ascii7.tables)
              (PF := Exact.platform) MoreSamples.preset_kept
              (MoreSamples.welcoming 1700000000))
    as (_ & E & R & _); try reflexivity.
  split; [exact E | exact R].
Defined.

(** The address given without [auto_create] is replaced. *)
Lemma connect_replaces_address_witness :
  email
    (snd (fst (connect (U := Py.Ascii7.tables) (PF := Exact.platform)
                 MoreSamples.preset_default (MoreSamples.welcoming 1700000000))))
  = lit "bcdefg@end.tw"
  /\ registration_time
       (snd (fst (connect (U := Py.Ascii7.tables) (PF := Exact.platform)
                    MoreSamples.preset_default (MoreSamples.welcoming 1700000000))))
     = Some 1700000000000%Z.
Proof.
  destruct (connect_replaces_address (U := Py.Ascii7.tables)
              (PF := Exact.platform) MoreSamples.preset_default
              (MoreSamples.welcoming 1700000000))
    as (_ & E & R); try reflexivity.
  split; [rewrite E | rewrite R]; vm_compute; reflexivity.
Defined.

(** After a handshake that raised, nothing is fetched. *)
Lemma get_messages_needs_token_witness :
  get_messages (PF := Exact.platform)
    (snd (fst (connect (U := Py.Ascii7.tables) (PF := Exact.platform)
                 Worlds.bound (Worlds.silent (Worlds.seconds_from 1700000000)))))
    10 None (Worlds.inbox 1700000010 [[Worlds.late]])
  = ([], Worlds.inbox 1700000010 [[Worlds.late]]).
Proof.
  apply (proj2 (get_messages_needs_token (U := Py.Ascii7.tables)
                  (PF := Exact.platform) None None Worlds.bound 10 None
                  (Worlds.silent (Worlds.seconds_from 1700000000))
                  (Worlds.inbox 1700000010 [[Worlds.late]]))).
  reflexivity.
Defined.

(** A limit of one cuts a batch of two. *)
Lemma get_messages_bounded_witness :
  length (fst (get_messages (PF := Exact.platform) Worlds.bound 1 None
                 (Worlds.inbox 1700000010 [[Worlds.early; Worlds.late]])))
  <= 1.
Proof.
  apply (get_messages_bounded (PF := Exact.platform) Worlds.bound (limit := 1) None
           (Worlds.inbox 1700000010 [[Worlds.early; Worlds.late]])).
  discriminate.
Defined.

(** Without registration time the record with the string time stamp comes
    back, without [received_at]; the one whose time stamp has a fraction
    comes back with it. *)
Lemma get_messages_without_bound_witness :
  fst (get_messages (PF := Exact.platform) Worlds.unregistered 10 None
         (Worlds.inbox 1700000010
            [[Worlds.malformed; MoreSamples.fractional; Worlds.late]]))
  = [to_message Worlds.unregistered Worlds.malformed None;
     to_message Worlds.unregistered MoreSamples.fractional
       (Some {| timestamp_millis := 1700000020000 |});
     to_message Worlds.unregistered Worlds.late
       (Some {| timestamp_millis := 1700000020000 |})]
  /\ received_at
       (to_message Worlds.unregistered Worlds.malformed
          (parse_time (PF := Exact.platform) (msg_time Worlds.malformed)))
     = None.
Proof.
  destruct (get_messages_without_bound (PF := Exact.platform)
              Worlds.unregistered 10
              (Worlds.inbox 1700000010
                 [[Worlds.malformed; MoreSamples.fractional; Worlds.late]])
              (data := [Worlds.malformed; MoreSamples.fractional; Worlds.late])
              eq_refl eq_refl eq_refl (or_introl eq_refl)) as [R T].
  split; [rewrite R; reflexivity |].
  apply T. reflexivity.
Defined.

(** The cookie ["abc123"], escaped and followed by a blank, gives the token
    without quotes and blanks. *)
Lemma get_auth_token_trimmed_witness :
  fst (get_auth_token (U := Py.Ascii7.tables) (PF := Exact.platform)
         Worlds.fresh (MoreSamples.welcoming 1700000000))
  = Some (lit "abc123")
  /\ (forall c t, lit "abc123" = c :: t ->
        is_space (Unicode := Py.Ascii7.tables) c = false).
Proof.
  split; [vm_compute; reflexivity |].
  apply (get_auth_token_trimmed (U := Py.Ascii7.tables) (PF := Exact.platform)
           Worlds.fresh (MoreSamples.welcoming 1700000000)).
  vm_compute. reflexivity.
Defined.

(** A wait for a subject that holds "CODE" returns the message whose subject
    is "Your code". *)
Lemma wait_for_message_respects_filters_witness :
  (forall f, Some (lit "CODE") = Some f -> truthy f = true ->
     contains (lower (Unicode := Py.Ascii7.tables) f)
       (lower (Unicode := Py.Ascii7.tables)
          (subject (to_message Worlds.bound Worlds.late
                      (Some {| timestamp_millis := 1700000020000 |}))))
     = true)
  /\ (forall f, @None str = Some f -> truthy f = true ->
        contains (lower (Unicode := Py.Ascii7.tables) f)
          (lower (Unicode := Py.Ascii7.tables)
             (sender (to_message Worlds.bound Worlds.late
                        (Some {| timestamp_millis := 1700000020000 |}))))
        = true).
Proof.
  apply (wait_for_message_respects_filters (U := Py.Ascii7.tables)
           (PF := Exact.platform) 3 Worlds.bound 60 5 (Some (lit "CODE")) None
           (Worlds.inbox 1700000010 [[Worlds.late]])).
  vm_compute. reflexivity.
Defined.


(** A provider just built finds nothing, and asks nothing. *)
Lemma wait_for_message_unconnected_witness :
  fetches
    (snd (wait_for_message (U := Py.Ascii7.tables) (PF := Exact.platform)
            3 Worlds.fresh 60 5 None None
            (Worlds.inbox 1700000010 [[Worlds.late]])))
  = fetches (Worlds.inbox 1700000010 [[Worlds.late]]).
Proof.
  apply (wait_for_message_unconnected (U := Py.Ascii7.tables)
           (PF := Exact.platform) 3 Worlds.fresh 60 5 None None
           (Worlds.inbox 1700000010 [[Worlds.late]])).
  reflexivity.
Defined.

(** One round is enough when the timeout is one second. *)
Lemma wait_for_message_finishes_witness :
  fst (wait_for_message (U := Py.Ascii7.tables) (PF := Exact.platform)
         1 Worlds.fresh 1 5 None None
         (Worlds.silent (Worlds.seconds_from 1700000000)))
  <> None.
Proof.
  apply (wait_for_message_finishes (U := Py.Ascii7.tables)
           (PF := Exact.platform) (n := 0)).
  - apply Nat.lt_0_1.
  - vm_compute. reflexivity.
Defined.

